(** * dash: the external controller (package route) and the inbound adapters

    A shallow embedding of [route.Start], [route.authentication],
    [route.traffic], [route.getLogs] and of [inbound.NewHTTP] /
    [inbound.NewSocket], with the properties the specification states
    about them.

    Conventions.  A Go [string] is a [string]; an [int64] is a [Z]; a
    [map[string][]string] ([http.Header], [url.Values]) is a
    [gmap string (list string)].  What a handler does to its
    [http.ResponseWriter] is recorded as the chronological list of the calls
    it makes on it.  Package-level variables are threaded as a record.
    Library functions the handlers call and whose code is not part of the
    repository (gorilla's upgrade test, [encoding/json]) are Section
    variables. *)

From Stdlib Require Import ZArith Lia.
From stdpp Require Import base option list strings pretty gmap.

Local Open Scope string_scope.
Local Open Scope list_scope.
Local Open Scope stdpp_scope.

Set Warnings "-register-all".

(** ** Go's [strings.Cut] *)

(** [strings.HasPrefix] and the rest after the prefix, in one pass. *)
Fixpoint strip_prefix (p s : string) : option string :=
  match p with
  | EmptyString => Some s
  | String a p' =>
      match s with
      | EmptyString => None
      | String b s' => if Ascii.eqb a b then strip_prefix p' s' else None
      end
  end.

(** [Cut s sep] slices [s] around the first instance of [sep]; when [sep]
    does not occur the result is [(s, "", false)]. *)
Fixpoint Cut (s sep : string) : string * string * bool :=
  match strip_prefix sep s with
  | Some after => (EmptyString, after, true)
  | None =>
      match s with
      | EmptyString => (s, EmptyString, false)
      | String c s' =>
          let '(before, after, found) := Cut s' sep in
          if found then (String c before, after, true)
          else (s, EmptyString, false)
      end
  end.

(** ** JSON values and struct tags *)

Inductive JSON : Type :=
| JString (s : string)
| JInt (n : Z)
| JObject (fields : list (string * JSON)).

(** The line feed [json.Encoder] ends every value with. *)
Definition newline : string := String (Ascii.ascii_of_nat 10) EmptyString.

(** What [encoding/json] reads off a struct's field tags. *)
Class Marshaler (A : Type) := to_json : A -> JSON.

(** [type Traffic struct { Up int64 `json:"up"`; Down int64 `json:"down"` }] *)
Record Traffic := { Up : Z; Down : Z }.

#[export] Instance Traffic_json : Marshaler Traffic :=
  fun t => JObject [("up", JInt (Up t)); ("down", JInt (Down t))].

(** [type Log struct { Type string `json:"type"`; Payload string `json:"payload"` }] *)
Record Log := { Type_ : string; Payload : string }.

#[export] Instance Log_json : Marshaler Log :=
  fun l => JObject [("type", JString (Type_ l)); ("payload", JString (Payload l))].

(** The error value of the control plane: one field, tagged [message]. *)
Record HTTPError := { Message : string }.

#[export] Instance HTTPError_json : Marshaler HTTPError :=
  fun e => JObject [("message", JString (Message e))].

(** Modelled from the spec: [ErrUnauthorized] is declared in a file of
    package route that is not among the sources; section 7 gives its
    rendering as [{message: "Unauthorized"}]. *)
Definition ErrUnauthorized : HTTPError := {| Message := "Unauthorized" |}.

(** ** Requests and response writers *)

(** [http.Header] and [url.Values]. *)
Abbreviation Values := (gmap string (list string)).

(** [Header.Get] / [Values.Get]: the first value under the key, [""] when
    there is none.  (The keys looked up below are already canonical.) *)
Definition Get (key : string) (v : Values) : string :=
  match v !! key with
  | Some (x :: _) => x
  | _ => ""
  end.

Record Request := {
  Method : string;
  Header : Values;
  Query : Values;            (* r.URL.Query() *)
  StatusCtx : option nat     (* the value under render.StatusCtxKey *)
}.

Definition StatusOK : nat := 200.
Definition StatusBadRequest : nat := 400.
Definition StatusUnauthorized : nat := 401.

(** [websocket.TextMessage] *)
Definition TextMessage : nat := 1.

(** One call on the response writer or on the upgraded connection. *)
Inductive Effect : Type :=
| SetHeader (key value : string)              (* w.Header().Set(key, value) *)
| WriteHeader (code : nat)                    (* w.WriteHeader(code) *)
| Write (data : string)                       (* w.Write(data) *)
| Flush                                       (* w.(http.Flusher).Flush() *)
| RenderJSON (status : option nat) (v : JSON)  (* render.JSON(w, r, v), [status]
                                                 being what render.Status left
                                                 in the context of [r] *)
| Upgrade (ok : bool)                         (* upgrader.Upgrade(w, r, nil) *)
| WriteMessage (messageType : nat) (data : string). (* wsConn.WriteMessage *)

Abbreviation ResponseWriter := (list Effect).

(** [http.Handler], as the function [ServeHTTP]. *)
Definition Handler : Type := ResponseWriter -> Request -> ResponseWriter.

(** [render.Status(r, status)] stores the status in the request context. *)
Definition render_Status (r : Request) (status : nat) : Request :=
  {| Method := Method r; Header := Header r; Query := Query r;
     StatusCtx := Some status |}.

(** The package-level variables of route. *)
Record Globals := {
  serverSecret : string;
  serverAddr : string;
  uiPath : string
}.

(** [*websocket.Conn]; [None] is the nil pointer. *)
Definition wsConn_t : Type := option unit.

(** The write at the end of a loop body of [traffic] and [getLogs]. *)
Definition emit (wsConn : wsConn_t) (buf : string) (w : ResponseWriter)
  : ResponseWriter :=
  match wsConn with
  | None => w ++ [Write buf; Flush]
  | Some _ => w ++ [WriteMessage TextMessage buf]
  end.

(** One delivery on [tick.C]: what [statistic.DefaultManager.Now()] returns
    then, and whether the write of that iteration succeeds. *)
Record Tick := { Now : Z * Z; tick_write_ok : bool }.

(** [time.Second], a [time.Duration] in nanoseconds. *)
Definition Second : Z := 1000000000.

(** Modelled from the spec: package log is not among the sources; section 3
    lists the levels in this order, which is the order [<] compares. *)
Inductive LogLevel : Type := DEBUG | INFO | WARNING | ERROR | SILENT.

Definition level_rank (l : LogLevel) : Z :=
  match l with
  | DEBUG => 0 | INFO => 1 | WARNING => 2 | ERROR => 3 | SILENT => 4
  end.

(** [log.Event] *)
Record Event := { LogLevel_ : LogLevel; EventPayload : string }.

(** [make(chan log.Event, 1024)] *)
Definition chanCap : nat := 1024.

(** [select { case ch <- log: default: }] on the channel's buffer, oldest
    event first. *)
Definition trySend (ch : list Event) (e : Event) : list Event :=
  if Nat.ltb (length ch) chanCap then ch ++ [e] else ch.

(** The two loops of [getLogs] run concurrently; a run is an interleaving
    of their iterations. *)
Inductive LogStep : Type :=
| Publish (e : Event)          (* the goroutine receives [e] from [sub] *)
| Receive (write_ok : bool).   (* [for log := range ch] takes one event;
                                  [write_ok]: the write, if any, succeeds *)

Record LogState := {
  ch : list Event;             (* the events buffered in [ch], oldest first *)
  out : ResponseWriter;
  running : bool               (* the main loop has not left by [break] *)
}.

(** The first statement of [getLogs]: the [level] parameter, ["info"]
    when it is empty. *)
Definition levelText (r : Request) : string :=
  let levelText := Get "level" (Query r) in
  if String.eqb levelText "" then "info" else levelText.

Section Route.

(** [websocket.IsWebSocketUpgrade]; it inspects the request headers only. *)
Variable IsWebSocketUpgrade : Values -> bool.

(** [encoding/json]'s compact encoding of a value, or an error. *)
Variable Marshal : JSON -> option string.

(** [websocket.Upgrader.Upgrade] succeeds or fails for reasons outside the
    handler; its outcome is an input. *)
Variable upgrade_ok : bool.

(** [time.NewTicker(d)], by what its channel [C] delivers: for each period
    asked for, the ticks a receiver gets, in order. *)
Variable NewTicker : Z -> list Tick.

(** [log.LogLevelMapping] and [LogLevel.String], which [Event.Type] returns. *)
Variable LogLevelMapping : gmap string LogLevel.
Variable LogLevel_String : LogLevel -> string.

(** Declared with [ErrUnauthorized]; its message text is left open. *)
Variable ErrBadRequest : HTTPError.

(** [json.NewEncoder(buf).Encode(v)]: the encoding followed by a newline. *)
Definition Encode {A} `{Marshaler A} (v : A) : option string :=
  (fun s => s +:+ newline) <$> Marshal (to_json v).

(** [render.JSON(w, r, v)] of go-chi/render answers with the JSON encoding
    of [v] under the status found in the context of [r]. *)
Definition render_JSON {A} `{Marshaler A}
    (w : ResponseWriter) (r : Request) (v : A) : ResponseWriter :=
  w ++ [RenderJSON (StatusCtx r) (to_json v)].

(** *** [authentication] *)

(** [func authentication(next http.Handler) http.Handler] *)
Definition authentication (g : Globals) (next : Handler) : Handler :=
  fun w r =>
    if String.eqb (serverSecret g) "" then next w r
    else
      (* Browser websocket not support custom header *)
      if IsWebSocketUpgrade (Header r)
         && negb (String.eqb (Get "token" (Query r)) "")
      then
        let token := Get "token" (Query r) in
        if negb (String.eqb token (serverSecret g)) then
          render_JSON w (render_Status r StatusUnauthorized) ErrUnauthorized
        else next w r
      else
        let header := Get "Authorization" (Header r) in
        let '(bearer, token, found) := Cut header " " in
        let hasInvalidHeader := negb (String.eqb bearer "Bearer") in
        let hasInvalidSecret :=
          negb found || negb (String.eqb token (serverSecret g)) in
        if hasInvalidHeader || hasInvalidSecret then
          render_JSON w (render_Status r StatusUnauthorized) ErrUnauthorized
        else next w r.

(** *** [traffic] *)

(** [for range tick.C { ... }], over the ticks delivered. *)
Fixpoint traffic_loop (wsConn : wsConn_t) (ticks : list Tick)
    (w : ResponseWriter) : ResponseWriter :=
  match ticks with
  | [] => w
  | t :: ticks' =>
      let '(up, down) := Now t in
      match Encode {| Up := up; Down := down |} with
      | None => w                                      (* break *)
      | Some buf =>
          let w := emit wsConn buf w in
          if tick_write_ok t then traffic_loop wsConn ticks' w
          else w                                       (* break *)
      end
  end.

(** [func traffic(w http.ResponseWriter, r *http.Request)] *)
Definition traffic : Handler :=
  fun w r =>
    if IsWebSocketUpgrade (Header r) && negb upgrade_ok then
      w ++ [Upgrade false]                             (* return *)
    else
      let '(wsConn, w) :=
        if IsWebSocketUpgrade (Header r)
        then (Some tt, w ++ [Upgrade true]) else (None, w) in
      (* render.Status(r, 200) only marks the request; nothing reads it *)
      let w := match wsConn with
               | None => w ++ [SetHeader "Content-Type" "application/json"]
               | Some _ => w
               end in
      let tick := NewTicker Second in
      traffic_loop wsConn tick w.

(** *** [getLogs] *)

(** [Event.Type()] *)
Definition Event_Type (e : Event) : string := LogLevel_String (LogLevel_ e).

(** One iteration of either loop.  After the main loop has left, the
    handler has returned and nothing more is written. *)
Definition log_step (level : LogLevel) (wsConn : wsConn_t)
    (st : LogState) (s : LogStep) : LogState :=
  if negb (running st) then st
  else
    match s with
    | Publish e =>
        {| ch := trySend (ch st) e; out := out st; running := true |}
    | Receive write_ok =>
        match ch st with
        | [] => st                                     (* blocked on [ch] *)
        | e :: rest =>
            if Z.ltb (level_rank (LogLevel_ e)) (level_rank level) then
              {| ch := rest; out := out st; running := true |}  (* continue *)
            else
              match Encode {| Type_ := Event_Type e;
                              Payload := EventPayload e |} with
              | None => {| ch := rest; out := out st; running := false |}
              | Some buf =>
                  {| ch := rest; out := emit wsConn buf (out st);
                     running := write_ok |}
              end
        end
    end.

Definition log_run (level : LogLevel) (wsConn : wsConn_t)
    (steps : list LogStep) (st : LogState) : LogState :=
  foldl (log_step level wsConn) st steps.

(** [getLogs], up to the state its loops have reached; the left injection
    when it returned before starting them. *)
Definition getLogs_state (steps : list LogStep)
    (w : ResponseWriter) (r : Request) : ResponseWriter + LogState :=
  match LogLevelMapping !! levelText r with
  | None =>
      inl (render_JSON w (render_Status r StatusBadRequest) ErrBadRequest)
  | Some level =>
      if IsWebSocketUpgrade (Header r) && negb upgrade_ok then
        inl (w ++ [Upgrade false])                     (* return *)
      else
        let '(wsConn, w) :=
          if IsWebSocketUpgrade (Header r)
          then (Some tt, w ++ [Upgrade true]) else (None, w) in
        let w := match wsConn with
                 | None => w ++ [SetHeader "Content-Type" "application/json"]
                 | Some _ => w
                 end in
        inr (log_run level wsConn steps
               {| ch := []; out := w; running := true |})
  end.

(** [func getLogs(w http.ResponseWriter, r *http.Request)] *)
Definition getLogs (steps : list LogStep) : Handler :=
  fun w r =>
    match getLogs_state steps w r with
    | inl w' => w'
    | inr st => out st
    end.

End Route.

(** ** [SetUIPath] and [Start] *)

(** [strings.Contains] *)
Fixpoint Contains (s substr : string) : bool :=
  match strip_prefix substr s with
  | Some _ => true
  | None =>
      match s with
      | EmptyString => false
      | String _ s' => Contains s' substr
      end
  end.

Record CorsOptions := {
  AllowedOrigins : list string;
  AllowedMethods : list string;
  AllowedHeaders : list string;
  MaxAge : Z
}.

(** The chi router [Start] builds: the CORS middleware, the group behind
    [authentication] as (method, pattern, handler) entries, and the
    not-found handler. *)
Record Router := {
  cors : CorsOptions;
  group_use : list string;
  group_routes : list (string * string * string);
  NotFound : option string
}.

Inductive Server : Type :=
| WtfServe (addr : string) (r : Router)        (* wtf.Serve(addr, r) *)
| HttpServe (bound : string) (r : Router).     (* http.Serve(l, r) *)

(** The package variables together with the servers started so far. *)
Record Controller := { vars : Globals; served : list Server }.

(** [func SetUIPath(path string)] *)
Definition SetUIPath (path : string) (c : Controller) : Controller :=
  {| vars := {| serverSecret := serverSecret (vars c);
                serverAddr := serverAddr (vars c);
                uiPath := path |};
     served := served c |}.

Section Start.

(** [net.Listen("tcp", addr)]: the address bound ([l.Addr().String()]),
    or an error. *)
Variable Listen : string -> option string.

Definition newRouter (ui : string) : Router :=
  {| cors := {| AllowedOrigins := ["*"];
                AllowedMethods := ["GET"; "POST"; "PUT"; "PATCH"; "DELETE"];
                AllowedHeaders := ["Content-Type"; "Authorization"];
                MaxAge := 300 |};
     group_use := ["authentication"];
     group_routes :=
       [("GET", "/logs", "getLogs");
        ("GET", "/traffic", "traffic");
        ("GET", "/version", "version");
        ("*", "/configs", "configRouter");
        ("*", "/proxies", "proxyRouter");
        ("*", "/rules", "ruleRouter");
        ("*", "/connections", "connectionRouter");
        ("*", "/providers/proxies", "proxyProviderRouter")];
     NotFound := if negb (String.eqb ui "") then Some ui else None |}.

(** [func Start(addr string, secret string)]; the log lines are left out. *)
Definition Start (addr secret : string) (c : Controller) : Controller :=
  if negb (String.eqb (serverAddr (vars c)) "") then c   (* return *)
  else
    let ui := uiPath (vars c) in
    let r := newRouter ui in
    if Contains addr "://" then
      {| vars := {| serverSecret := secret; serverAddr := addr;
                    uiPath := ui |};
         served := served c ++ [WtfServe addr r] |}
    else
      match Listen addr with
      | None =>
          {| vars := {| serverSecret := secret; serverAddr := addr;
                        uiPath := ui |};
             served := served c |}
      | Some bound =>
          {| vars := {| serverSecret := secret; serverAddr := bound;
                        uiPath := ui |};
             served := served c ++ [HttpServe bound r] |}
      end.

End Start.

(** ** Package inbound: [NewHTTP] and [NewSocket] *)

(** [socks5.Addr] and [net.IP] are byte slices; the nil slice is [[]]. *)
Abbreviation bytes := (list Byte.byte).

(** Modelled from the spec: package constant is not among the sources;
    section 3 gives the network families, the inbound kinds and the fields
    of the metadata.  The four fields the adapters assign carry the names
    the adapters use. *)
Inductive NetWork_t : Type := TCP | UDP.

Inductive Type_t : Type := HTTP | SOCKS4 | SOCKS5 | REDIR | TPROXY | TUN.

Record Metadata := {
  NetWork : NetWork_t;
  Type' : Type_t;
  SrcIP : bytes;
  SrcPort : string;
  dst_host : string;
  dst_ip : bytes;
  dst_port : string;
  process_name : string
}.

(** A [net.Addr], by what its methods return. *)
Record Addr := { Network : string; String_ : string }.

(** A [net.Conn], as far as the adapters look at it. *)
Record Conn := { LocalAddr : Addr; RemoteAddr : Addr }.

(** [context.ConnContext] *)
Record ConnContext := { ctx_conn : Conn; ctx_metadata : Metadata }.

Definition set_NetWork (n : NetWork_t) (m : Metadata) : Metadata :=
  {| NetWork := n; Type' := Type' m; SrcIP := SrcIP m; SrcPort := SrcPort m;
     dst_host := dst_host m; dst_ip := dst_ip m; dst_port := dst_port m;
     process_name := process_name m |}.

Definition set_Type (t : Type_t) (m : Metadata) : Metadata :=
  {| NetWork := NetWork m; Type' := t; SrcIP := SrcIP m; SrcPort := SrcPort m;
     dst_host := dst_host m; dst_ip := dst_ip m; dst_port := dst_port m;
     process_name := process_name m |}.

Definition set_Src (ip : bytes) (port : string) (m : Metadata) : Metadata :=
  {| NetWork := NetWork m; Type' := Type' m; SrcIP := ip; SrcPort := port;
     dst_host := dst_host m; dst_ip := dst_ip m; dst_port := dst_port m;
     process_name := process_name m |}.

Section Inbound.

(** The helpers of package inbound and the constructor of package context;
    their files are not among the sources. *)
Variable parseSocksAddr : bytes -> Metadata.
Variable parseAddr : string -> (bytes * string) + string.
Variable NewConnContext : Conn -> Metadata -> option ConnContext.

(** [if ip, port, err := parseAddr(s); err == nil { ... }] *)
Definition with_source (s : string) (metadata : Metadata) : Metadata :=
  match parseAddr s with
  | inl (ip, port) => set_Src ip port metadata
  | inr _ => metadata
  end.

(** [func NewHTTP(target socks5.Addr, source net.Addr, conn net.Conn)
    *context.ConnContext] *)
Definition NewHTTP (target : bytes) (source : Addr) (conn : Conn)
  : option ConnContext :=
  let metadata := parseSocksAddr target in
  let metadata := set_NetWork TCP metadata in
  let metadata := set_Type HTTP metadata in
  let metadata := with_source (String_ source) metadata in
  NewConnContext conn metadata.

(** [func NewSocket(target socks5.Addr, conn net.Conn, source C.Type)
    *context.ConnContext] *)
Definition NewSocket (target : bytes) (conn : Conn) (source : Type_t)
  : option ConnContext :=
  let metadata := parseSocksAddr target in
  let metadata := set_NetWork TCP metadata in
  let metadata := set_Type source metadata in
  let metadata := with_source (String_ (RemoteAddr conn)) metadata in
  NewConnContext conn metadata.

End Inbound.

(** ** The adapters as a caller reaches them *)

(** The end of a call: a returned value, or a run-time panic. *)
Inductive Outcome (A : Type) : Type :=
| Returns (a : A)
| Panics.

Arguments Returns {A} a.
Arguments Panics {A}.

Section InboundCalls.

Variable parseSocksAddr : bytes -> Metadata.
Variable parseAddr : string -> (bytes * string) + string.
Variable NewConnContext : Conn -> Metadata -> option ConnContext.

(** [NewHTTP(target, source, conn)] for a [source] that may be the nil
    interface ([None]): [source.String()] is then a method call on nil,
    which panics. *)
Definition NewHTTP_call (target : bytes) (source : option Addr) (conn : Conn)
  : Outcome (option ConnContext) :=
  match source with
  | None => Panics
  | Some source =>
      Returns (NewHTTP parseSocksAddr parseAddr NewConnContext
                 target source conn)
  end.

(** [NewSocket(target, conn, source)] for a [conn] that may be the nil
    interface ([None]): [conn.RemoteAddr()] is then a method call on nil,
    which panics. *)
Definition NewSocket_call (target : bytes) (conn : option Conn)
    (source : Type_t) : Outcome (option ConnContext) :=
  match conn with
  | None => Panics
  | Some conn =>
      Returns (NewSocket parseSocksAddr parseAddr NewConnContext
                 target conn source)
  end.

End InboundCalls.

(** ** Reading a run of a streaming handler *)

(** The calls one object costs, by mode. *)
Definition frames (wsConn : wsConn_t) (bufs : list string) : list Effect :=
  concat (map (fun buf => emit wsConn buf []) bufs).

(** What a streaming handler does before its loop, by negotiation. *)
Definition prelude (isWS ok : bool) : list Effect :=
  if isWS then [Upgrade ok]
  else [SetHeader "Content-Type" "application/json"].

Definition negotiated (isWS : bool) : wsConn_t :=
  if isWS then Some tt else None.

(** Every buffer is the encoding of one JSON object and a line feed. *)
Definition object_lines (Marshal : JSON -> option string)
    (bufs : list string) : Prop :=
  Forall (fun buf => exists fields body,
            Marshal (JObject fields) = Some body /\ buf = body +:+ newline)
         bufs.

(** The events the subscription delivers during a run, in order. *)
Fixpoint published (steps : list LogStep) : list Event :=
  match steps with
  | [] => []
  | Publish e :: steps' => e :: published steps'
  | Receive _ :: steps' => published steps'
  end.

(** [log.LogLevel >= level] *)
Definition at_level (level : LogLevel) (e : Event) : Prop :=
  (level_rank level <= level_rank (LogLevel_ e))%Z.

#[export] Instance at_level_dec level e : Decision (at_level level e).
Proof. unfold at_level. apply _. Defined.

(** The number of events waiting in the channel after a run that starts
    with [n] of them, provided no send found the channel full and the main
    loop did not leave. *)
Fixpoint occupancy (steps : list LogStep) (n : nat) : option nat :=
  match steps with
  | [] => Some n
  | Publish _ :: steps' =>
      if Nat.ltb n chanCap then occupancy steps' (S n) else None
  | Receive _ :: steps' => occupancy steps' (Nat.pred n)
  end.

Definition writes_ok (steps : list LogStep) : bool :=
  forallb (fun s => match s with Receive ok => ok | Publish _ => true end)
          steps.

(** The [Log] value [getLogs] encodes for an event. *)
Definition Log_of (LogLevel_String : LogLevel -> string) (e : Event) : Log :=
  {| Type_ := Event_Type LogLevel_String e; Payload := EventPayload e |}.

(** The [Traffic] value [traffic] encodes at a tick. *)
Definition Traffic_of (t : Tick) : Traffic :=
  {| Up := fst (Now t); Down := snd (Now t) |}.

(** A request with its [level] parameter set. *)
Definition with_level (levelText : string) (r : Request) : Request :=
  {| Method := Method r; Header := Header r;
     Query := <["level" := [levelText]]> (Query r);
     StatusCtx := StatusCtx r |}.

(** ** Values to run the handlers on *)

Definition old_event : Event := {| LogLevel_ := WARNING; EventPayload := "old" |}.
Definition new_event : Event := {| LogLevel_ := ERROR; EventPayload := "new" |}.

(** A channel holding 1024 events. *)
Definition full_channel : list Event := replicate chanCap old_event.

Definition String_of_level (l : LogLevel) : string :=
  match l with
  | DEBUG => "debug" | INFO => "info" | WARNING => "warning"
  | ERROR => "error" | SILENT => "silent"
  end.

Definition level_names : gmap string LogLevel :=
  list_to_map (map (fun l => (String_of_level l, l))
                   [DEBUG; INFO; WARNING; ERROR; SILENT]).

(** ** A printer and an upgrade test to run the handlers on examples *)

Definition quote (s : string) : string :=
  String (Ascii.ascii_of_nat 34) (s +:+ String (Ascii.ascii_of_nat 34) EmptyString).

(** The compact encoding of [encoding/json], for values whose strings need
    no escaping. *)
Fixpoint plain_Marshal (v : JSON) : string :=
  match v with
  | JString s => quote s
  | JInt n => pretty n
  | JObject fields =>
      "{" +:+
      (fix members (fs : list (string * JSON)) : string :=
         match fs with
         | [] => ""
         | [(k, x)] => quote k +:+ ":" +:+ plain_Marshal x
         | (k, x) :: rest =>
             quote k +:+ ":" +:+ plain_Marshal x +:+ "," +:+ members rest
         end) fields
      +:+ "}"
  end.

(** A request carrying [Upgrade: websocket] and [Connection: Upgrade], the
    form browsers send, is a WebSocket upgrade. *)
Definition browser_upgrade (h : Values) : bool :=
  String.eqb (Get "Upgrade" h) "websocket"
  && String.eqb (Get "Connection" h) "Upgrade".

Definition upgrade_headers : Values :=
  {[ "Upgrade" := ["websocket"]; "Connection" := ["Upgrade"] ]}.

(** A handler that answers 200. *)
Definition ok_handler : Handler := fun w _ => w ++ [WriteHeader StatusOK].

Definition get_request (h q : Values) : Request :=
  {| Method := "GET"; Header := h; Query := q; StatusCtx := None |}.

Definition some_Marshal (v : JSON) : option string := Some (plain_Marshal v).

(** The controller variables with secret ["s"]. *)
Definition secret_s : Globals :=
  {| serverSecret := "s"; serverAddr := "127.0.0.1:9090"; uiPath := "" |}.

Definition no_secret : Globals :=
  {| serverSecret := ""; serverAddr := "127.0.0.1:9090"; uiPath := "" |}.

(** A WebSocket upgrade with [?token=x] and [Authorization: Bearer s]. *)
Definition upgrade_wrong_token_right_bearer : Request :=
  get_request (<["Authorization" := ["Bearer s"]]> upgrade_headers)
              {[ "token" := ["x"] ]}.

(** A WebSocket upgrade with [?token=s] and no [Authorization]. *)
Definition upgrade_right_token : Request :=
  get_request upgrade_headers {[ "token" := ["s"] ]}.

(** A plain request without credentials. *)
Definition bare_request : Request := get_request ∅ ∅.


(** The 401 answer. *)
Definition unauthorized_answer : ResponseWriter :=
  [RenderJSON (Some 401) (JObject [("message", JString "Unauthorized")])].

(** [GET /logs?level=info] without upgrade headers. *)
Definition logs_request : Request :=
  get_request ∅ {[ "level" := ["info"] ]}.

(** 1025 events arrive before the writer takes the first one. *)
Definition burst : list LogStep :=
  map Publish (full_channel ++ [new_event])
  ++ replicate 1025 (Receive true).

Definition bad_request : HTTPError := {| Message := "Body invalid" |}.

(** The line [some_Marshal] and [String_of_level] give an event. *)
Definition log_line (e : Event) : string :=
  plain_Marshal (to_json (Log_of String_of_level e)) +:+ newline.

Definition debug_event : Event := {| LogLevel_ := DEBUG; EventPayload := "dbg" |}.

(** Two events arrive, then the writer takes both. *)
Definition small_run : list LogStep :=
  [Publish debug_event; Publish new_event; Receive true; Receive true].

(** [GET /logs] with no [level] parameter. *)
Definition logs_request_no_level : Request := get_request ∅ ∅.

(** Three ticks; the third write fails. *)
Definition three_ticks : list Tick :=
  [ {| Now := (10, 20)%Z; tick_write_ok := true |};
    {| Now := (0, 5)%Z; tick_write_ok := true |};
    {| Now := (7, 7)%Z; tick_write_ok := false |} ].

Definition two_ticks : list Tick := take 2 three_ticks.

(** A ticker that delivers [two_ticks] when asked for a period of one second
    and nothing at any other period. *)
Definition one_second_ticker (d : Z) : list Tick :=
  if Z.eqb d 1000000000 then two_ticks else [].

(** A ticker that delivers the same ticks whatever the period. *)
Definition ticker_of (ticks : list Tick) (d : Z) : list Tick := ticks.

Definition traffic_line (t : Tick) : string :=
  plain_Marshal (to_json (Traffic_of t)) +:+ newline.

Definition traffic_request : Request := get_request ∅ ∅.

Definition traffic_upgrade_request : Request := get_request upgrade_headers ∅.

(** A listener that binds the address asked for. *)
Definition listen_any (addr : string) : option string := Some addr.

Definition fresh_controller : Controller :=
  {| vars := {| serverSecret := ""; serverAddr := ""; uiPath := "" |};
     served := [] |}.

(** The controller after [Start("127.0.0.1:9090", "s")]. *)
Definition started_controller : Controller :=
  Start listen_any "127.0.0.1:9090" "s" fresh_controller.

(** Stand-ins for the helpers of package inbound: a target parser that
    fills the destination only, a source parser that accepts one address,
    and the allocating constructor. *)
Definition example_parseSocksAddr (target : bytes) : Metadata :=
  {| NetWork := UDP; Type' := SOCKS5; SrcIP := []; SrcPort := "";
     dst_host := "example.com"; dst_ip := target; dst_port := "443";
     process_name := "" |}.

Definition example_parseAddr (s : string) : (bytes * string) + string :=
  if String.eqb s "10.0.0.1:5000"
  then inl ([Byte.x0a; Byte.x00; Byte.x00; Byte.x01], "5000")
  else inr "missing port in address".

Definition example_NewConnContext (conn : Conn) (m : Metadata)
  : option ConnContext :=
  Some {| ctx_conn := conn; ctx_metadata := m |}.

Definition good_addr : Addr := {| Network := "tcp"; String_ := "10.0.0.1:5000" |}.
Definition odd_addr : Addr := {| Network := "pipe"; String_ := "pipe" |}.
Definition good_conn : Conn := {| LocalAddr := good_addr; RemoteAddr := good_addr |}.
Definition odd_conn : Conn := {| LocalAddr := odd_addr; RemoteAddr := odd_addr |}.

(** ** [version] *)

(** [render.M], a [map[string]interface{}]; it encodes as an object. *)
Definition M : Type := list (string * JSON).

#[export] Instance M_json : Marshaler M := fun m => JObject m.

Section Version.

(** [C.Version], fixed when the program is built. *)
Variable Version : string.

(** [func version(w http.ResponseWriter, r *http.Request)] *)
Definition version : Handler :=
  fun w r => render_JSON w r ([("version", JString Version)] : M).

End Version.

(** ** Sequences of calls on the controller *)

Inductive Call : Type :=
| CallStart (addr secret : string)
| CallSetUIPath (path : string).

Definition call (Listen : string -> option string)
    (c : Controller) (k : Call) : Controller :=
  match k with
  | CallStart addr secret => Start Listen addr secret c
  | CallSetUIPath path => SetUIPath path c
  end.

Definition calls (Listen : string -> option string)
    (ks : list Call) (c : Controller) : Controller :=
  foldl (call Listen) c ks.

(** The address a server was started on, and its router. *)
Definition server_addr (srv : Server) : string :=
  match srv with WtfServe addr _ => addr | HttpServe bound _ => bound end.

Definition server_router (srv : Server) : Router :=
  match srv with WtfServe _ r => r | HttpServe _ r => r end.

(** No server, or one server whose address is the recorded, non-empty
    one. *)
Definition one_server (c : Controller) : Prop :=
  served c = []
  \/ exists srv, served c = [srv]
                 /\ serverAddr (vars c) = server_addr srv
                 /\ serverAddr (vars c) <> "".

(** A listener that binds the address asked for, and picks one when none is
    given. *)
Definition listen_bound (addr : string) : option string :=
  Some (if String.eqb addr "" then "[::]:49152" else addr).

(** A listener that finds every port taken. *)
Definition listen_none (addr : string) : option string := None.

(** A request with its query replaced. *)
Definition with_query (q : Values) (r : Request) : Request :=
  {| Method := Method r; Header := Header r; Query := q;
     StatusCtx := StatusCtx r |}.

(** * Properties *)

(** ** [strings.Cut] *)

Lemma strip_prefix_Some p s rest :
  strip_prefix p s = Some rest -> s = p +:+ rest.
Proof.
  revert s; induction p as [|a p IH]; intros s H; simpl in *.
  - by injection H as ->.
  - destruct s as [|b s]; [discriminate|].
    destruct (Ascii.eqb_spec a b) as [->|]; [|discriminate].
    apply IH in H as ->. reflexivity.
Qed.

Lemma Cut_found s sep before after :
  Cut s sep = (before, after, true) -> s = before +:+ sep +:+ after.
Proof.
  revert before; induction s as [|c s IH]; intros before; simpl.
  - destruct (strip_prefix sep "") eqn:E; [|discriminate].
    intros [= <- <-]. exact (strip_prefix_Some _ _ _ E).
  - destruct (strip_prefix sep (String c s)) eqn:E.
    + intros [= <- <-]. exact (strip_prefix_Some _ _ _ E).
    + destruct (Cut s sep) as [[b a] f] eqn:EC.
      destruct f; [|discriminate].
      intros [= <- <-]. rewrite (IH b eq_refl) at 1. reflexivity.
Qed.

Lemma Cut_Bearer secret :
  Cut ("Bearer " +:+ secret) " " = ("Bearer", secret, true).
Proof. reflexivity. Qed.

(** The header check of [authentication] passes exactly on the header
    [Bearer <secret>]. *)
Lemma bearer_check header secret :
  (let '(bearer, token, found) := Cut header " " in
   negb (String.eqb bearer "Bearer")
   || (negb found || negb (String.eqb token secret))) = false
  <-> header = "Bearer " +:+ secret.
Proof.
  split.
  - destruct (Cut header " ") as [[b t] f] eqn:E.
    rewrite !orb_false_iff, !negb_false_iff, !String.eqb_eq.
    intros (-> & -> & ->). by apply Cut_found in E.
  - intros ->. rewrite Cut_Bearer.
    by rewrite !String.eqb_refl.
Qed.

(** ** [authentication] *)

(** C4.  With the empty secret, [authentication] hands every request to the
    wrapped handler, whatever its [Authorization] header and [token]
    parameter are. *)
Theorem authentication_disabled
    (isWS : Values -> bool)
    (g : Globals) (next : Handler) (w : ResponseWriter) (r : Request) :
  serverSecret g = "" ->
  authentication isWS g next w r = next w r.
Proof. intros Hs. unfold authentication. by rewrite Hs. Qed.

Lemma authentication_disabled_witness :
  authentication browser_upgrade no_secret ok_handler []
    upgrade_wrong_token_right_bearer
  = ok_handler [] upgrade_wrong_token_right_bearer.
Proof. apply authentication_disabled. reflexivity. Defined.

(** C1, as the code has it.  With a non-empty secret, a request reaches the
    wrapped handler exactly when either it is a WebSocket upgrade with a
    non-empty [token] parameter equal to the secret, or it is not a WebSocket
    upgrade with a non-empty [token] and its [Authorization] header is
    [Bearer <secret>].  Every other request is answered by [render.JSON] with
    status 401 and the object [{"message": "Unauthorized"}], and the wrapped
    handler does not run. *)
Theorem authentication_admits
    (isWS : Values -> bool)
    (g : Globals) (next : Handler) (w : ResponseWriter) (r : Request) :
  serverSecret g <> "" ->
  let token := Get "token" (Query r) in
  let by_token := isWS (Header r) = true /\ token <> "" in
  let admitted :=
    (by_token /\ token = serverSecret g)
    \/ (~ by_token
        /\ Get "Authorization" (Header r) = "Bearer " +:+ serverSecret g) in
  (admitted -> authentication isWS g next w r = next w r)
  /\ (~ admitted ->
      authentication isWS g next w r
      = w ++ [RenderJSON (Some 401)
                (JObject [("message", JString "Unauthorized")])]).
Proof.
  intros Hs token by_token admitted.
  set (reject := w ++ [RenderJSON (Some 401)
                         (JObject [("message", JString "Unauthorized")])]).
  assert (Hcode : authentication isWS g next w r
    = if isWS (Header r) && negb (String.eqb token "") then
        if negb (String.eqb token (serverSecret g)) then reject
        else next w r
      else
        if (let '(bearer, tok, found) :=
              Cut (Get "Authorization" (Header r)) " " in
            negb (String.eqb bearer "Bearer")
            || (negb found || negb (String.eqb tok (serverSecret g))))
        then reject
        else next w r).
  { unfold authentication.
    destruct (String.eqb_spec (serverSecret g) ""); [contradiction|].
    fold token.
    destruct (Cut (Get "Authorization" (Header r)) " ") as [[b t] f].
    reflexivity. }
  rewrite Hcode. clear Hcode. clearbody reject.
  pose proof (bearer_check (Get "Authorization" (Header r)) (serverSecret g))
    as Hb.
  set (invalid := let '(bearer, tok, found) :=
                    Cut (Get "Authorization" (Header r)) " " in _) in *.
  assert (Hinv : invalid = true ->
                 Get "Authorization" (Header r)
                 <> "Bearer " +:+ serverSecret g).
  { intros Hi Habs. apply Hb in Habs. congruence. }
  clearbody invalid.
  unfold admitted, by_token.
  destruct (isWS (Header r)); simpl;
    destruct (String.eqb_spec token "") as [Et|Et]; simpl;
    try (destruct (String.eqb_spec token (serverSecret g)) as [Es|Es]; simpl);
    try (destruct invalid;
         [specialize (Hinv eq_refl) | pose proof (proj1 Hb eq_refl) as Hok]).
  all: split; intros H.
  all: try reflexivity.
  all: exfalso; intuition congruence.
Qed.

Lemma authentication_admits_witness :
  authentication browser_upgrade secret_s ok_handler [] upgrade_right_token
  = [WriteHeader 200]
  /\ authentication browser_upgrade secret_s ok_handler [] bare_request
     = unauthorized_answer.
Proof.
  split.
  - apply (authentication_admits browser_upgrade secret_s ok_handler []
             upgrade_right_token); [discriminate|].
    left. vm_compute. repeat split; discriminate.
  - apply (authentication_admits browser_upgrade secret_s ok_handler []
             bare_request); [discriminate|].
    vm_compute. intros [[[? _] _]|[_ ?]]; discriminate.
Defined.

(** C1, as the specification words it, fails: a WebSocket upgrade that
    carries [Authorization: Bearer s] together with a wrong non-empty
    [token] is refused, because the token branch decides alone. *)
Lemma authentication_token_overrides_bearer :
  serverSecret secret_s <> ""
  /\ Get "Authorization" (Header upgrade_wrong_token_right_bearer)
     = "Bearer " +:+ serverSecret secret_s
  /\ authentication browser_upgrade secret_s ok_handler []
       upgrade_wrong_token_right_bearer = unauthorized_answer
  /\ authentication browser_upgrade secret_s ok_handler []
       upgrade_wrong_token_right_bearer
     <> ok_handler [] upgrade_wrong_token_right_bearer.
Proof. vm_compute. repeat split; discriminate. Qed.

(** ** The channel of [getLogs] *)

Lemma trySend_length ch e :
  length ch <= chanCap -> length (trySend ch e) <= chanCap.
Proof.
  intros H. unfold trySend.
  destruct (Nat.ltb_spec (length ch) chanCap); [|done].
  rewrite length_app. simpl. lia.
Qed.

Section Logs.

Context (Marshal : JSON -> option string)
        (LogLevel_String : LogLevel -> string).

Local Abbreviation step := (log_step Marshal LogLevel_String).
Local Abbreviation run := (log_run Marshal LogLevel_String).

Lemma log_step_bounded level wsConn st s :
  length (ch st) <= chanCap ->
  length (ch (step level wsConn st s)) <= chanCap.
Proof.
  intros H. unfold log_step.
  destruct (running st); simpl; [|done].
  destruct s as [e|ok]; simpl.
  - by apply trySend_length.
  - destruct (ch st) as [|e rest] eqn:E; [by rewrite E|].
    simpl in H.
    repeat case_match; simpl; lia.
Qed.

Lemma log_run_bounded level wsConn steps st :
  length (ch st) <= chanCap ->
  length (ch (run level wsConn steps st)) <= chanCap.
Proof.
  revert st. induction steps as [|s steps IH]; intros st H; [done|].
  apply IH. by apply log_step_bounded.
Qed.

End Logs.

(** C2, as the code has it.  The channel between the subscription and the
    writer never holds more than 1024 events; the goroutine's send never
    waits: with room the event is appended, and with 1024 events queued the
    new event is the one dropped, the queued ones and the output staying as
    they are. *)
Theorem channel_bounded_drops_newest
    (Marshal : JSON -> option string) (LogLevel_String : LogLevel -> string)
    (level : LogLevel) (wsConn : wsConn_t) (st : LogState) :
  length (ch st) <= chanCap ->
  (forall steps,
      length (ch (log_run Marshal LogLevel_String level wsConn steps st))
      <= chanCap)
  /\ (forall e,
      running st = true -> length (ch st) < chanCap ->
      log_step Marshal LogLevel_String level wsConn st (Publish e)
      = {| ch := ch st ++ [e]; out := out st; running := true |})
  /\ (forall e,
      running st = true -> length (ch st) = chanCap ->
      log_step Marshal LogLevel_String level wsConn st (Publish e) = st).
Proof.
  intros Hb. split; [|split].
  - intros steps. by apply log_run_bounded.
  - intros e Hr Hlt. unfold log_step, trySend. rewrite Hr. simpl.
    by destruct (Nat.ltb_spec (length (ch st)) chanCap); [|lia].
  - intros e Hr Hfull. unfold log_step, trySend. rewrite Hr. simpl.
    destruct (Nat.ltb_spec (length (ch st)) chanCap); [lia|].
    destruct st; simpl in *. by rewrite Hr.
Qed.

Lemma channel_bounded_drops_newest_witness :
  log_step some_Marshal String_of_level INFO None
    {| ch := full_channel; out := []; running := true |} (Publish new_event)
  = {| ch := full_channel; out := []; running := true |}.
Proof.
  destruct (channel_bounded_drops_newest some_Marshal String_of_level INFO
              None {| ch := full_channel; out := []; running := true |})
    as (_ & _ & Hfull).
  - exact (le_n chanCap).
  - apply Hfull; reflexivity.
Defined.

(** C2, as the specification words it, fails: with 1024 events queued a
    further event does not push the oldest one out. *)
Lemma full_channel_keeps_oldest :
  length full_channel = 1024
  /\ ch (log_step some_Marshal String_of_level INFO None
           {| ch := full_channel; out := []; running := true |}
           (Publish new_event))
     = full_channel
  /\ ch (log_step some_Marshal String_of_level INFO None
           {| ch := full_channel; out := []; running := true |}
           (Publish new_event))
     <> tail full_channel ++ [new_event].
Proof.
  split; [reflexivity|]. split; [reflexivity|].
  intros H. apply (f_equal (fun l => last l)) in H.
  vm_compute in H. discriminate.
Qed.

(** ** The stream of [getLogs] *)

Lemma emit_app wsConn buf w : emit wsConn buf w = w ++ emit wsConn buf [].
Proof. by destruct wsConn. Qed.

Lemma frames_cons wsConn buf bufs :
  frames wsConn (buf :: bufs) = emit wsConn buf [] ++ frames wsConn bufs.
Proof. reflexivity. Qed.

Lemma emit_frames wsConn buf w bufs :
  emit wsConn buf w ++ frames wsConn bufs = w ++ frames wsConn (buf :: bufs).
Proof. by rewrite frames_cons, (emit_app _ _ w), <- app_assoc. Qed.

Lemma below_level level e :
  Z.ltb (level_rank (LogLevel_ e)) (level_rank level) = true <->
  ~ at_level level e.
Proof. unfold at_level. rewrite Z.ltb_lt. lia. Qed.

Section LogStream.

Context (Marshal : JSON -> option string)
        (LogLevel_String : LogLevel -> string).

Local Abbreviation step := (log_step Marshal LogLevel_String).
Local Abbreviation run := (log_run Marshal LogLevel_String).
Local Abbreviation encodes :=
  (fun e buf => Encode Marshal (Log_of LogLevel_String e) = Some buf).

Lemma log_step_stopped level wsConn st s :
  running st = false -> step level wsConn st s = st.
Proof. intros H. unfold log_step. by rewrite H. Qed.

Lemma log_run_stopped level wsConn steps st :
  running st = false -> run level wsConn steps st = st.
Proof.
  intros H. induction steps as [|s steps IH]; [done|].
  change (run level wsConn (s :: steps) st)
    with (run level wsConn steps (step level wsConn st s)).
  by rewrite log_step_stopped.
Qed.

(** Whatever the interleaving, the writer puts out the encodings of a
    subsequence of the events at the level that were queued or arrive. *)
Lemma log_run_sublist level wsConn steps : forall st,
  exists delivered bufs,
    delivered `sublist_of`
      filter (at_level level) (ch st ++ published steps)
    /\ Forall2 encodes delivered bufs
    /\ out (run level wsConn steps st) = out st ++ frames wsConn bufs.
Proof.
  induction steps as [|s steps IH]; intros st.
  { exists [], []. repeat split; [apply sublist_nil_l|constructor|].
    simpl. by rewrite app_nil_r. }
  destruct (running st) eqn:Hr; cycle 1.
  { exists [], []. repeat split; [apply sublist_nil_l|constructor|].
    rewrite log_run_stopped by done. by rewrite app_nil_r. }
  change (run level wsConn (s :: steps) st)
    with (run level wsConn steps (step level wsConn st s)).
  unfold log_step. rewrite Hr. simpl negb. cbv iota.
  destruct s as [e|ok]; simpl published.
  - (* the goroutine sends, or drops *)
    match goal with |- context [run _ _ _ ?st'] =>
      destruct (IH st') as (d & bufs & Hsub & Henc & Hout) end.
    simpl in Hsub, Hout.
    exists d, bufs. repeat split; [|done|done].
    unfold trySend in Hsub.
    destruct (Nat.ltb (length (ch st)) chanCap).
    + by rewrite <- app_assoc in Hsub.
    + etrans; [exact Hsub|].
      rewrite !filter_app. apply sublist_app; [done|].
      rewrite filter_cons. case_decide; [by apply sublist_cons_r; left|done].
  - destruct (ch st) as [|e rest] eqn:Ech.
    + destruct (IH st) as (d & bufs & Hsub & Henc & Hout).
      rewrite Ech in Hsub. by exists d, bufs.
    + destruct (Z.ltb (level_rank (LogLevel_ e)) (level_rank level)) eqn:El.
      * match goal with |- context [run _ _ _ ?st'] =>
          destruct (IH st') as (d & bufs & Hsub & Henc & Hout) end.
        simpl in Hsub, Hout. exists d, bufs. repeat split; [|done|done].
        simpl. rewrite filter_cons_False; [done|by apply below_level].
      * assert (Hat : at_level level e).
        { destruct (decide (at_level level e)) as [|Hn]; [done|].
          apply below_level in Hn. congruence. }
        destruct (Encode Marshal _) as [buf|] eqn:Eenc.
        -- match goal with |- context [run _ _ _ ?st'] =>
             destruct (IH st') as (d & bufs & Hsub & Henc & Hout) end.
           simpl in Hsub, Hout.
           exists (e :: d), (buf :: bufs). repeat split.
           ++ simpl. rewrite filter_cons_True by done.
              by apply sublist_skip.
           ++ by constructor.
           ++ by rewrite Hout, emit_frames.
        -- exists [], []. repeat split; [apply sublist_nil_l|constructor|].
           rewrite log_run_stopped by done. simpl. by rewrite app_nil_r.
Qed.

(** When no send found the channel full, nothing failed and the channel
    was emptied, nothing is missing. *)
Lemma log_run_exact level wsConn steps : forall st bufs,
  running st = true ->
  occupancy steps (length (ch st)) = Some 0 ->
  writes_ok steps = true ->
  Forall2 encodes
    (filter (at_level level) (ch st ++ published steps)) bufs ->
  out (run level wsConn steps st) = out st ++ frames wsConn bufs.
Proof.
  induction steps as [|s steps IH]; intros st bufs Hr Hocc Hw Henc.
  { simpl in *. injection Hocc as Hocc.
    apply nil_length_inv in Hocc. rewrite Hocc in Henc. simpl in Henc.
    apply Forall2_nil_inv_l in Henc as ->. by rewrite app_nil_r. }
  change (run level wsConn (s :: steps) st)
    with (run level wsConn steps (step level wsConn st s)).
  unfold log_step. rewrite Hr. simpl negb. cbv iota.
  destruct s as [e|ok]; simpl in Hocc, Hw, Henc.
  - unfold trySend.
    destruct (Nat.ltb (length (ch st)) chanCap); [|discriminate].
    rewrite IH with (bufs := bufs); simpl; try done.
    + rewrite length_app. simpl. by rewrite Nat.add_1_r.
    + by rewrite <- app_assoc.
  - apply andb_true_iff in Hw as [-> Hw].
    destruct (ch st) as [|e rest] eqn:Ech.
    + apply IH; try done; by rewrite Ech.
    + simpl in Hocc, Henc.
      destruct (Z.ltb (level_rank (LogLevel_ e)) (level_rank level)) eqn:El.
      * rewrite filter_cons_False in Henc by (by apply below_level).
        by rewrite IH with (bufs := bufs).
      * assert (Hat : at_level level e).
        { destruct (decide (at_level level e)) as [|Hn]; [done|].
          apply below_level in Hn. congruence. }
        rewrite filter_cons_True in Henc by done.
        apply Forall2_cons_inv_l in Henc as (buf & bufs' & Hb & Henc & ->).
        unfold Log_of in Hb. rewrite Hb.
        rewrite IH with (bufs := bufs'); simpl; try done.
        by rewrite emit_frames.
Qed.

End LogStream.

Section GetLogs.

Context (isWS : Values -> bool) (Marshal : JSON -> option string)
        (upgrade_ok : bool) (LogLevelMapping : gmap string LogLevel)
        (LogLevel_String : LogLevel -> string) (ErrBadRequest : HTTPError).

Local Abbreviation getLogs' :=
  (getLogs isWS Marshal upgrade_ok LogLevelMapping LogLevel_String
     ErrBadRequest).
Local Abbreviation encodes :=
  (fun e buf => Encode Marshal (Log_of LogLevel_String e) = Some buf).

Lemma getLogs_unknown_level steps w r :
  LogLevelMapping !! levelText r = None ->
  getLogs' steps w r
  = render_JSON w (render_Status r StatusBadRequest) ErrBadRequest.
Proof. intros H. unfold getLogs, getLogs_state. by rewrite H. Qed.

Lemma getLogs_known_level steps w r level :
  LogLevelMapping !! levelText r = Some level ->
  getLogs' steps w r
  = if isWS (Header r) && negb upgrade_ok then w ++ [Upgrade false]
    else out (log_run Marshal LogLevel_String level
                (negotiated (isWS (Header r))) steps
                {| ch := [];
                   out := w ++ prelude (isWS (Header r)) true;
                   running := true |}).
Proof.
  intros H. unfold getLogs, getLogs_state. rewrite H.
  destruct (isWS (Header r)), upgrade_ok; reflexivity.
Qed.

Lemma getLogs_sublist steps w r level :
  LogLevelMapping !! levelText r = Some level ->
  exists delivered bufs,
    delivered `sublist_of` filter (at_level level) (published steps)
    /\ Forall2 encodes delivered bufs
    /\ getLogs' steps w r
       = w ++ prelude (isWS (Header r)) upgrade_ok
           ++ frames (negotiated (isWS (Header r))) bufs.
Proof.
  intros H. rewrite (getLogs_known_level _ _ _ _ H).
  destruct (isWS (Header r) && negb upgrade_ok) eqn:E.
  - apply andb_true_iff in E as [-> ->%negb_true_iff].
    exists [], []. repeat split; [apply sublist_nil_l|constructor].
  - match goal with |- context [log_run _ _ _ ?c ?l ?st] =>
      destruct (log_run_sublist Marshal LogLevel_String level c l st)
        as (d & bufs & Hsub & Henc & Hout) end.
    exists d, bufs. repeat split; [done|done|].
    rewrite Hout. simpl. rewrite <- app_assoc.
    by destruct (isWS (Header r)), upgrade_ok.
Qed.

Lemma getLogs_exact steps w r level bufs :
  LogLevelMapping !! levelText r = Some level ->
  isWS (Header r) = false \/ upgrade_ok = true ->
  occupancy steps 0 = Some 0 ->
  writes_ok steps = true ->
  Forall2 encodes (filter (at_level level) (published steps)) bufs ->
  getLogs' steps w r
  = w ++ prelude (isWS (Header r)) upgrade_ok
      ++ frames (negotiated (isWS (Header r))) bufs.
Proof.
  intros H Hup Hocc Hw Henc. rewrite (getLogs_known_level _ _ _ _ H).
  assert (isWS (Header r) && negb upgrade_ok = false) as ->.
  { destruct Hup as [->| ->]; [done|by rewrite andb_false_r]. }
  rewrite log_run_exact with (bufs := bufs); try done.
  simpl. rewrite <- app_assoc.
  destruct Hup as [->| ->]; [done|by destruct (isWS (Header r))].
Qed.

End GetLogs.




Lemma levelText_default r :
  Get "level" (Query r) = "" ->
  levelText r = "info" /\ levelText (with_level "info" r) = "info".
Proof.
  intros H. unfold levelText. rewrite H. split; [done|].
  unfold with_level, Get. simpl. by rewrite lookup_insert_eq.
Qed.

(** C10.  A request whose [level] parameter is absent or empty is served as
    the same request with [level=info]; when the table maps ["info"] to the
    Info level, only events at or above Info are written, so no Debug event
    is. *)
Theorem getLogs_default_level
    (isWS : Values -> bool) (Marshal : JSON -> option string)
    (upgrade_ok : bool) (LogLevelMapping : gmap string LogLevel)
    (LogLevel_String : LogLevel -> string) (ErrBadRequest : HTTPError)
    (steps : list LogStep) (w : ResponseWriter) (r : Request) :
  let getLogs' := getLogs isWS Marshal upgrade_ok LogLevelMapping
                    LogLevel_String ErrBadRequest in
  Get "level" (Query r) = "" ->
  getLogs' steps w r = getLogs' steps w (with_level "info" r)
  /\ (LogLevelMapping !! "info" = Some INFO ->
      exists delivered bufs,
        delivered `sublist_of` filter (at_level INFO) (published steps)
        /\ Forall (fun e => LogLevel_ e <> DEBUG) delivered
        /\ Forall2 (fun e buf =>
                      Encode Marshal (Log_of LogLevel_String e) = Some buf)
             delivered bufs
        /\ getLogs' steps w r
           = w ++ prelude (isWS (Header r)) upgrade_ok
               ++ frames (negotiated (isWS (Header r))) bufs).
Proof.
  intros getLogs' Hempty.
  destruct (levelText_default r Hempty) as [Hr Hr'].
  split.
  - unfold getLogs', getLogs, getLogs_state. rewrite Hr, Hr'.
    destruct (LogLevelMapping !! "info"); reflexivity.
  - intros Hinfo.
    destruct (getLogs_sublist isWS Marshal upgrade_ok LogLevelMapping
                LogLevel_String ErrBadRequest steps w r INFO)
      as (d & bufs & Hsub & Henc & Hout); [by rewrite Hr|].
    exists d, bufs. repeat split; try done.
    apply Forall_forall. intros e He.
    apply (sublist_subseteq _ _ Hsub), list_elem_of_filter in He as [Hat _].
    unfold at_level in Hat. intros Hd. rewrite Hd in Hat. simpl in Hat. lia.
Qed.

Lemma getLogs_default_level_witness :
  getLogs browser_upgrade some_Marshal true level_names String_of_level
    bad_request small_run [] logs_request_no_level
  = getLogs browser_upgrade some_Marshal true level_names String_of_level
      bad_request small_run [] (with_level "info" logs_request_no_level)
  /\ exists delivered bufs,
      delivered `sublist_of` filter (at_level INFO) (published small_run)
      /\ Forall (fun e => LogLevel_ e <> DEBUG) delivered
      /\ Forall2 (fun e buf =>
                    Encode some_Marshal (Log_of String_of_level e) = Some buf)
           delivered bufs
      /\ getLogs browser_upgrade some_Marshal true level_names String_of_level
           bad_request small_run [] logs_request_no_level
         = [] ++ prelude (browser_upgrade (Header logs_request_no_level)) true
             ++ frames
                  (negotiated (browser_upgrade (Header logs_request_no_level)))
                  bufs.
Proof.
  destruct (getLogs_default_level browser_upgrade some_Marshal true
              level_names String_of_level bad_request small_run []
              logs_request_no_level) as [Hsame Hinfo].
  - reflexivity.
  - split; [exact Hsame|]. apply Hinfo. reflexivity.
Defined.

(** ** The stream of [traffic] *)

Lemma frames_ws bufs :
  frames (Some tt) bufs = map (WriteMessage TextMessage) bufs.
Proof. induction bufs as [|b bufs IH]; [done|]. rewrite frames_cons, IH. done. Qed.

Lemma frames_http bufs :
  frames None bufs = concat (map (fun buf => [Write buf; Flush]) bufs).
Proof. reflexivity. Qed.

Section Traffic.

Context (isWS : Values -> bool) (Marshal : JSON -> option string)
        (upgrade_ok : bool) (NewTicker : Z -> list Tick).

Local Abbreviation loop := (traffic_loop Marshal).
Local Abbreviation encodes :=
  (fun t buf => Encode Marshal (Traffic_of t) = Some buf).

Lemma traffic_loop_cons wsConn t ticks w :
  loop wsConn (t :: ticks) w
  = match Encode Marshal (Traffic_of t) with
    | None => w
    | Some buf =>
        if tick_write_ok t then loop wsConn ticks (emit wsConn buf w)
        else emit wsConn buf w
    end.
Proof. simpl. unfold Traffic_of. by destruct (Now t). Qed.

(** The loop writes one object per tick for a prefix of the ticks, and
    leaves that prefix only on a failed encode or a failed write. *)
Lemma traffic_loop_prefix wsConn ticks : forall w,
  exists n bufs,
    n <= length ticks
    /\ Forall2 encodes (take n ticks) bufs
    /\ loop wsConn ticks w = w ++ frames wsConn bufs
    /\ (forall i t, S i < n -> ticks !! i = Some t -> tick_write_ok t = true)
    /\ (n < length ticks ->
        (exists t, ticks !! n = Some t
                   /\ Encode Marshal (Traffic_of t) = None)
        \/ (exists i t, n = S i /\ ticks !! i = Some t
                        /\ tick_write_ok t = false)).
Proof.
  induction ticks as [|t ticks IH]; intros w.
  { exists 0, []. simpl. rewrite app_nil_r.
    split_and!; [lia|constructor|done|intros; lia|lia]. }
  rewrite traffic_loop_cons.
  destruct (Encode Marshal (Traffic_of t)) as [buf|] eqn:Eenc.
  - destruct (tick_write_ok t) eqn:Eok.
    + destruct (IH (emit wsConn buf w)) as (n & bufs & Hn & Henc & Hout & Hok & Hstop).
      exists (S n), (buf :: bufs). simpl. split_and!.
      * lia.
      * by constructor.
      * by rewrite Hout, emit_frames.
      * intros [|i] t' Hi Hl; simpl in Hl; [congruence|].
        apply (Hok i); [lia|done].
      * intros Hlt. destruct Hstop as [(t' & Hl & He)|(i & t' & -> & Hl & Hw)];
          [lia| |]; [left|right]; eauto.
    + exists 1, [buf]. simpl. split_and!.
      * lia.
      * rewrite take_0. by repeat constructor.
      * rewrite <- (emit_frames _ _ w []). unfold frames. simpl.
        by rewrite app_nil_r.
      * intros i t' Hi. lia.
      * intros _. right. exists 0, t. eauto.
  - exists 0, []. simpl. rewrite app_nil_r. split_and!.
    + lia.
    + constructor.
    + done.
    + intros i t' Hi. lia.
    + intros _. left. eauto.
Qed.

Lemma traffic_loop_all wsConn ticks : forall w bufs,
  Forall (fun t => tick_write_ok t = true) ticks ->
  Forall2 encodes ticks bufs ->
  loop wsConn ticks w = w ++ frames wsConn bufs.
Proof.
  induction ticks as [|t ticks IH]; intros w bufs Hok Henc.
  { apply Forall2_nil_inv_l in Henc as ->. simpl. by rewrite app_nil_r. }
  apply Forall2_cons_inv_l in Henc as (buf & bufs' & Hb & Henc & ->).
  apply Forall_cons in Hok as [Ht Hok].
  rewrite traffic_loop_cons, Hb, Ht, IH with (bufs := bufs') by done.
  by rewrite emit_frames.
Qed.

Lemma traffic_negotiated w r :
  traffic isWS Marshal upgrade_ok NewTicker w r
  = if isWS (Header r) && negb upgrade_ok then w ++ [Upgrade false]
    else loop (negotiated (isWS (Header r))) (NewTicker Second)
           (w ++ prelude (isWS (Header r)) true).
Proof. unfold traffic. by destruct (isWS (Header r)), upgrade_ok. Qed.

End Traffic.

(** C5.  [traffic] takes its ticks from a ticker of period one second
    (1000000000 ns) and from no other.  Once the connection stands (no
    upgrade asked, or the upgrade succeeded), it writes, for a prefix of
    those ticks and in their order, one encoded object with the integer
    fields [up] and [down] that [Now()] returned at that tick: a write
    followed by a flush over HTTP, a text message over WebSocket.  It leaves
    that prefix only when an encode or a write failed, so with no failure
    every tick gets its object.  (When the upgrade is refused there is no
    connection to write on and the handler returns.) *)
Theorem traffic_streams
    (isWS : Values -> bool) (Marshal : JSON -> option string)
    (upgrade_ok : bool) (NewTicker : Z -> list Tick) (w : ResponseWriter)
    (r : Request) :
  let ws := isWS (Header r) in
  let ticks := NewTicker 1000000000%Z in
  let line t buf :=
    (fun body => body +:+ newline)
      <$> Marshal (JObject [("up", JInt (fst (Now t)));
                            ("down", JInt (snd (Now t)))])
    = Some buf in
  let stream bufs :=
    if ws then
      w ++ [Upgrade true] ++ map (WriteMessage TextMessage) bufs
    else
      w ++ [SetHeader "Content-Type" "application/json"]
        ++ concat (map (fun buf => [Write buf; Flush]) bufs) in
  (ws = true -> upgrade_ok = false ->
   traffic isWS Marshal upgrade_ok NewTicker w r = w ++ [Upgrade false])
  /\ (ws = false \/ upgrade_ok = true ->
      (exists n bufs,
          n <= length ticks
          /\ Forall2 line (take n ticks) bufs
          /\ traffic isWS Marshal upgrade_ok NewTicker w r = stream bufs
          /\ (forall i t,
                S i < n -> ticks !! i = Some t -> tick_write_ok t = true)
          /\ (n < length ticks ->
              (exists t, ticks !! n = Some t
                         /\ Marshal (JObject [("up", JInt (fst (Now t)));
                                              ("down", JInt (snd (Now t)))])
                            = None)
              \/ (exists i t, n = S i /\ ticks !! i = Some t
                              /\ tick_write_ok t = false)))
      /\ (forall bufs,
          Forall (fun t => tick_write_ok t = true) ticks ->
          Forall2 line ticks bufs ->
          traffic isWS Marshal upgrade_ok NewTicker w r = stream bufs)).
Proof.
  intros ws ticks line stream.
  split.
  { intros Hws Hup. rewrite traffic_negotiated. fold ws. by rewrite Hws, Hup. }
  intros Hup.
  assert (Hneg : traffic isWS Marshal upgrade_ok NewTicker w r
                 = traffic_loop Marshal (negotiated ws) ticks
                     (w ++ prelude ws upgrade_ok)).
  { rewrite traffic_negotiated. fold ws.
    destruct Hup as [->| ->]; [done|]. by rewrite andb_false_r. }
  assert (Hstream : forall bufs,
            w ++ prelude ws upgrade_ok ++ frames (negotiated ws) bufs
            = stream bufs).
  { intros bufs. unfold stream.
    destruct Hup as [->| ->].
    - by rewrite frames_http.
    - destruct ws; simpl negotiated; [by rewrite frames_ws|].
      by rewrite frames_http. }
  split.
  - destruct (traffic_loop_prefix Marshal (negotiated ws) ticks
                (w ++ prelude ws upgrade_ok))
      as (n & bufs & Hn & Henc & Hout & Hok & Hstop).
    exists n, bufs. split_and!; try done.
    + by rewrite Hneg, Hout, <- app_assoc, Hstream.
    + intros Hlt. destruct (Hstop Hlt) as [(t & Hl & He)|?]; [left|by right].
      exists t. split; [done|].
      unfold Encode in He. by apply fmap_None in He.
  - intros bufs Hok Henc.
    rewrite Hneg, traffic_loop_all with (bufs := bufs) by done.
    by rewrite <- app_assoc, Hstream.
Qed.

Lemma traffic_streams_witness :
  traffic browser_upgrade some_Marshal true one_second_ticker []
    traffic_request
  = [SetHeader "Content-Type" "application/json";
     Write ("{" +:+ quote "up" +:+ ":10," +:+ quote "down" +:+ ":20}"
            +:+ newline);
     Flush;
     Write ("{" +:+ quote "up" +:+ ":0," +:+ quote "down" +:+ ":5}"
            +:+ newline);
     Flush].
Proof.
  destruct (traffic_streams browser_upgrade some_Marshal true
              one_second_ticker [] traffic_request) as (_ & Hstream).
  destruct Hstream as [_ Hall].
  - left. reflexivity.
  - apply (Hall
             ["{" +:+ quote "up" +:+ ":10," +:+ quote "down" +:+ ":20}"
                +:+ newline;
              "{" +:+ quote "up" +:+ ":0," +:+ quote "down" +:+ ":5}"
                +:+ newline]).
    + repeat constructor.
    + repeat constructor.
Defined.

(** ** The mode of a stream *)

Lemma Encode_object_lines {A B} `{Marshaler B} Marshal (f : A -> B) xs bufs :
  (forall x, exists fields, to_json (f x) = JObject fields) ->
  Forall2 (fun x buf => Encode Marshal (f x) = Some buf) xs bufs ->
  object_lines Marshal bufs.
Proof.
  intros Hobj. induction 1 as [|x buf xs bufs Hx _ IH]; constructor; [|done].
  destruct (Hobj x) as [fields Hf]. unfold Encode in Hx. rewrite Hf in Hx.
  apply fmap_Some in Hx as (body & Hb & ->). eauto.
Qed.

Section Mode.

Context (isWS : Values -> bool) (Marshal : JSON -> option string)
        (upgrade_ok : bool) (NewTicker : Z -> list Tick)
        (LogLevelMapping : gmap string LogLevel)
        (LogLevel_String : LogLevel -> string) (ErrBadRequest : HTTPError).

Lemma traffic_frames w r :
  exists bufs,
    object_lines Marshal bufs
    /\ traffic isWS Marshal upgrade_ok NewTicker w r
       = w ++ prelude (isWS (Header r)) upgrade_ok
           ++ frames (negotiated (isWS (Header r))) bufs.
Proof.
  rewrite traffic_negotiated.
  destruct (isWS (Header r) && negb upgrade_ok) eqn:E.
  - apply andb_true_iff in E as [-> ->%negb_true_iff].
    exists []. split; [constructor|done].
  - destruct (traffic_loop_prefix Marshal (negotiated (isWS (Header r)))
                (NewTicker Second) (w ++ prelude (isWS (Header r)) true))
      as (n & bufs & _ & Henc & Hout & _).
    exists bufs. split.
    + eapply (Encode_object_lines Marshal Traffic_of); [|exact Henc].
      intros t. eexists. reflexivity.
    + rewrite Hout, <- app_assoc.
      by destruct (isWS (Header r)), upgrade_ok.
Qed.

Lemma getLogs_frames steps w r level :
  LogLevelMapping !! levelText r = Some level ->
  exists bufs,
    object_lines Marshal bufs
    /\ getLogs isWS Marshal upgrade_ok LogLevelMapping LogLevel_String
         ErrBadRequest steps w r
       = w ++ prelude (isWS (Header r)) upgrade_ok
           ++ frames (negotiated (isWS (Header r))) bufs.
Proof.
  intros H.
  destruct (getLogs_sublist isWS Marshal upgrade_ok LogLevelMapping
              LogLevel_String ErrBadRequest steps w r level H)
    as (d & bufs & _ & Henc & Hout).
  exists bufs. split; [|done].
  eapply (Encode_object_lines Marshal (Log_of LogLevel_String));
    [|exact Henc].
  intros e. eexists. reflexivity.
Qed.

End Mode.

(** C6.  For [traffic], and for [getLogs] once the level is accepted, the
    mode follows the upgrade test alone.  A WebSocket upgrade request gets
    the call to [Upgrade] and then nothing but text messages, one per
    object.  Any other request gets the header [Content-Type:
    application/json] and then, per object, one write of the object's
    encoding ended by a line feed, followed by a flush. *)
Theorem stream_mode_by_upgrade
    (isWS : Values -> bool) (Marshal : JSON -> option string)
    (upgrade_ok : bool) (LogLevelMapping : gmap string LogLevel)
    (LogLevel_String : LogLevel -> string) (ErrBadRequest : HTTPError)
    (NewTicker : Z -> list Tick) (steps : list LogStep)
    (w : ResponseWriter) (r : Request) :
  let traffic' := traffic isWS Marshal upgrade_ok NewTicker in
  let getLogs' := getLogs isWS Marshal upgrade_ok LogLevelMapping
                    LogLevel_String ErrBadRequest steps in
  let websocket_stream (out : ResponseWriter) :=
    exists bufs,
      object_lines Marshal bufs
      /\ out = w ++ [Upgrade upgrade_ok]
                 ++ map (WriteMessage TextMessage) bufs in
  let http_stream (out : ResponseWriter) :=
    exists bufs,
      object_lines Marshal bufs
      /\ out = w ++ [SetHeader "Content-Type" "application/json"]
                 ++ concat (map (fun buf => [Write buf; Flush]) bufs) in
  (isWS (Header r) = true ->
   websocket_stream (traffic' w r)
   /\ (forall level, LogLevelMapping !! levelText r = Some level ->
                     websocket_stream (getLogs' w r)))
  /\ (isWS (Header r) = false ->
      http_stream (traffic' w r)
      /\ (forall level, LogLevelMapping !! levelText r = Some level ->
                        http_stream (getLogs' w r))).
Proof.
  intros traffic' getLogs' websocket_stream http_stream.
  split; intros Hws; (split; [|intros level Hlevel]).
  - destruct (traffic_frames isWS Marshal upgrade_ok NewTicker w r)
      as (bufs & Hobj & Hout).
    exists bufs. split; [done|].
    unfold traffic'. by rewrite Hout, Hws, frames_ws.
  - destruct (getLogs_frames isWS Marshal upgrade_ok LogLevelMapping
                LogLevel_String ErrBadRequest steps w r level Hlevel)
      as (bufs & Hobj & Hout).
    exists bufs. split; [done|].
    unfold getLogs'. by rewrite Hout, Hws, frames_ws.
  - destruct (traffic_frames isWS Marshal upgrade_ok NewTicker w r)
      as (bufs & Hobj & Hout).
    exists bufs. split; [done|].
    unfold traffic'. by rewrite Hout, Hws, frames_http.
  - destruct (getLogs_frames isWS Marshal upgrade_ok LogLevelMapping
                LogLevel_String ErrBadRequest steps w r level Hlevel)
      as (bufs & Hobj & Hout).
    exists bufs. split; [done|].
    unfold getLogs'. by rewrite Hout, Hws, frames_http.
Qed.

Lemma stream_mode_by_upgrade_witness :
  (exists bufs,
      object_lines some_Marshal bufs
      /\ traffic browser_upgrade some_Marshal true (ticker_of three_ticks) []
           traffic_upgrade_request
         = [] ++ [Upgrade true] ++ map (WriteMessage TextMessage) bufs)
  /\ (exists bufs,
      object_lines some_Marshal bufs
      /\ getLogs browser_upgrade some_Marshal true level_names
           String_of_level bad_request small_run [] logs_request
         = [] ++ [SetHeader "Content-Type" "application/json"]
             ++ concat (map (fun buf => [Write buf; Flush]) bufs)).
Proof.
  split.
  - destruct (stream_mode_by_upgrade browser_upgrade some_Marshal true
                level_names String_of_level bad_request
                (ticker_of three_ticks) small_run
                [] traffic_upgrade_request) as [Hws _].
    destruct Hws as [Htraffic _]; [reflexivity|exact Htraffic].
  - destruct (stream_mode_by_upgrade browser_upgrade some_Marshal true
                level_names String_of_level bad_request
                (ticker_of three_ticks) small_run
                [] logs_request) as [_ Hhttp].
    destruct Hhttp as [_ Hlogs]; [reflexivity|].
    apply (Hlogs INFO). reflexivity.
Defined.

(** ** [Start] *)

(** C8.  Once [serverAddr] is non-empty, [Start] with any address and secret
    returns at its first statement: the variables and the servers started
    are what they were. *)
Theorem Start_once
    (Listen : string -> option string) (addr secret : string)
    (c : Controller) :
  serverAddr (vars c) <> "" ->
  Start Listen addr secret c = c
  /\ vars (Start Listen addr secret c) = vars c
  /\ served (Start Listen addr secret c) = served c.
Proof.
  intros H. assert (Start Listen addr secret c = c) as ->; [|done].
  unfold Start. by destruct (String.eqb_spec (serverAddr (vars c)) "").
Qed.

Lemma Start_once_witness :
  serverAddr (vars started_controller) = "127.0.0.1:9090"
  /\ Start listen_any "ws://relay.example/ui" "other" started_controller
     = started_controller.
Proof.
  split; [reflexivity|].
  apply (Start_once listen_any "ws://relay.example/ui" "other"
           started_controller).
  discriminate.
Defined.

(** ** [NewHTTP] and [NewSocket] *)

Section InboundFacts.

Context (parseSocksAddr : bytes -> Metadata)
        (parseAddr : string -> (bytes * string) + string).

(** What the adapters do to the parsed target before they wrap it. *)
Lemma adapter_metadata target kind s :
  let m := with_source parseAddr s
             (set_Type kind (set_NetWork TCP (parseSocksAddr target))) in
  NetWork m = TCP /\ Type' m = kind
  /\ dst_host m = dst_host (parseSocksAddr target)
  /\ dst_ip m = dst_ip (parseSocksAddr target)
  /\ dst_port m = dst_port (parseSocksAddr target)
  /\ process_name m = process_name (parseSocksAddr target)
  /\ match parseAddr s with
     | inl (ip, port) => SrcIP m = ip /\ SrcPort m = port
     | inr _ => SrcIP m = SrcIP (parseSocksAddr target)
                /\ SrcPort m = SrcPort (parseSocksAddr target)
     end.
Proof.
  unfold with_source. destruct (parseAddr s) as [[ip port]|err]; done.
Qed.

End InboundFacts.

(** C7.  The metadata [NewHTTP] hands to [NewConnContext] has network TCP and
    kind HTTP, its destination fields are those of the parsed target, and
    when the source address parses its [SrcIP] and [SrcPort] are the parsed
    ones; [NewSocket] does the same with the kind it is given and the
    connection's remote address. *)
Theorem adapters_build_metadata
    (parseSocksAddr : bytes -> Metadata)
    (parseAddr : string -> (bytes * string) + string)
    (NewConnContext : Conn -> Metadata -> option ConnContext)
    (target : bytes) (source : Addr) (conn : Conn) (kind : Type_t) :
  let built (m : Metadata) (k : Type_t) (s : string) :=
    NetWork m = TCP /\ Type' m = k
    /\ dst_host m = dst_host (parseSocksAddr target)
    /\ dst_ip m = dst_ip (parseSocksAddr target)
    /\ dst_port m = dst_port (parseSocksAddr target)
    /\ (forall ip port, parseAddr s = inl (ip, port) ->
                        SrcIP m = ip /\ SrcPort m = port) in
  (exists m,
      NewHTTP parseSocksAddr parseAddr NewConnContext target source conn
      = NewConnContext conn m
      /\ built m HTTP (String_ source))
  /\ (exists m,
      NewSocket parseSocksAddr parseAddr NewConnContext target conn kind
      = NewConnContext conn m
      /\ built m kind (String_ (RemoteAddr conn))).
Proof.
  intros built. split; eexists; (split; [reflexivity|]).
  - pose proof (adapter_metadata parseSocksAddr parseAddr target HTTP
                  (String_ source)) as (? & ? & ? & ? & ? & _ & Hsrc).
    split_and!; try done. intros ip port Hp. by rewrite Hp in Hsrc.
  - pose proof (adapter_metadata parseSocksAddr parseAddr target kind
                  (String_ (RemoteAddr conn))) as (? & ? & ? & ? & ? & _ & Hsrc).
    split_and!; try done. intros ip port Hp. by rewrite Hp in Hsrc.
Qed.

Lemma adapters_build_metadata_witness :
  exists m,
    NewHTTP example_parseSocksAddr example_parseAddr example_NewConnContext
      [Byte.x01] good_addr good_conn
    = example_NewConnContext good_conn m
    /\ NetWork m = TCP /\ Type' m = HTTP
    /\ SrcIP m = [Byte.x0a; Byte.x00; Byte.x00; Byte.x01]
    /\ SrcPort m = "5000".
Proof.
  destruct (adapters_build_metadata example_parseSocksAddr example_parseAddr
              example_NewConnContext [Byte.x01] good_addr good_conn HTTP)
    as [(m & Hm & Hnet & Hkind & _ & _ & _ & Hsrc) _].
  exists m. split; [exact Hm|]. split; [exact Hnet|]. split; [exact Hkind|].
  apply Hsrc. reflexivity.
Defined.




(** * Further properties *)

(** ** [Start] and [SetUIPath] over sequences of calls *)

Lemma Contains_nonempty addr : Contains addr "://" = true -> addr <> "".
Proof. by intros H ->. Qed.

Lemma Start_returns_early Listen addr secret c :
  serverAddr (vars c) <> "" -> Start Listen addr secret c = c.
Proof.
  intros H. unfold Start.
  by destruct (String.eqb_spec (serverAddr (vars c)) "").
Qed.

(** What an effective call leaves behind, by the three ways it can end. *)
Lemma Start_effective Listen addr secret c :
  serverAddr (vars c) = "" ->
  let c' := Start Listen addr secret c in
  serverSecret (vars c') = secret
  /\ uiPath (vars c') = uiPath (vars c)
  /\ ((Contains addr "://" = true
       /\ serverAddr (vars c') = addr
       /\ served c' = served c ++ [WtfServe addr (newRouter (uiPath (vars c)))])
      \/ (Contains addr "://" = false /\ Listen addr = None
          /\ serverAddr (vars c') = addr /\ served c' = served c)
      \/ (exists bound,
            Contains addr "://" = false /\ Listen addr = Some bound
            /\ serverAddr (vars c') = bound
            /\ served c'
               = served c ++ [HttpServe bound (newRouter (uiPath (vars c)))])).
Proof.
  intros H. unfold Start. rewrite H. simpl.
  destruct (Contains addr "://") eqn:Ec; simpl.
  - split_and!; try done. by left.
  - destruct (Listen addr) as [bound|] eqn:El; simpl.
    + split_and!; try done. right; right. by exists bound.
    + split_and!; try done. right; left. done.
Qed.

Lemma calls_latched Listen ks : forall c,
  serverAddr (vars c) <> "" ->
  serverAddr (vars (calls Listen ks c)) = serverAddr (vars c)
  /\ serverSecret (vars (calls Listen ks c)) = serverSecret (vars c)
  /\ served (calls Listen ks c) = served c.
Proof.
  induction ks as [|k ks IH]; intros c H; [done|].
  change (calls Listen (k :: ks) c) with (calls Listen ks (call Listen c k)).
  destruct k as [addr secret|path]; simpl call.
  - rewrite Start_returns_early by done. by apply IH.
  - destruct (IH (SetUIPath path c)) as (Ha & Hs & Hv); [done|].
    by rewrite Ha, Hs, Hv.
Qed.

(** X2.  Once an address is recorded, no sequence of [Start] and
    [SetUIPath] calls changes the address, the secret or the servers; the UI
    path is the only variable that still moves. *)
Theorem calls_after_recorded
    (Listen : string -> option string) (ks : list Call) (c : Controller) :
  serverAddr (vars c) <> "" ->
  serverAddr (vars (calls Listen ks c)) = serverAddr (vars c)
  /\ serverSecret (vars (calls Listen ks c)) = serverSecret (vars c)
  /\ served (calls Listen ks c) = served c.
Proof. intros H. by apply calls_latched. Qed.

Lemma calls_after_recorded_witness :
  served (calls listen_any
            [CallSetUIPath "/ui"; CallStart "0.0.0.0:80" "t";
             CallStart "ws://relay.example/ui" "u"]
            started_controller)
  = served started_controller.
Proof.
  apply (calls_after_recorded listen_any
           [CallSetUIPath "/ui"; CallStart "0.0.0.0:80" "t";
            CallStart "ws://relay.example/ui" "u"] started_controller).
  discriminate.
Defined.

Lemma call_one_server Listen c k :
  (forall a b, Listen a = Some b -> b <> "") ->
  one_server c -> one_server (call Listen c k).
Proof.
  intros HL Hc. destruct k as [addr secret|path]; simpl.
  - destruct (decide (serverAddr (vars c) = "")) as [He|Hne];
      [|by rewrite Start_returns_early].
    assert (Hnone : served c = []).
    { destruct Hc as [|(srv & _ & _ & Hne)]; [done|contradiction]. }
    destruct (Start_effective Listen addr secret c He)
      as (_ & _ & [(Hc1 & Ha & Hs)|[(_ & _ & _ & Hs)|(b & _ & Hl & Ha & Hs)]]).
    + right. eexists. rewrite Hs, Hnone, Ha. split_and!; [done|done|].
      by apply Contains_nonempty.
    + left. by rewrite Hs.
    + right. eexists. rewrite Hs, Hnone, Ha. split_and!; [done|done|].
      by apply (HL addr).
  - exact Hc.
Qed.

(** X1.  Whatever [Start] and [SetUIPath] calls are made, and in whatever
    order, at most one server is ever started, and while it runs the
    recorded address is the address it was started on.  (The listener is
    taken to report a non-empty bound address.) *)
Theorem at_most_one_server
    (Listen : string -> option string) (ks : list Call) (c : Controller) :
  (forall a b, Listen a = Some b -> b <> "") ->
  one_server c ->
  one_server (calls Listen ks c) /\ length (served (calls Listen ks c)) <= 1.
Proof.
  intros HL Hc.
  assert (H : one_server (calls Listen ks c)).
  { revert c Hc. induction ks as [|k ks IH]; intros c Hc; [done|].
    apply IH. by apply call_one_server. }
  split; [done|].
  destruct H as [->|(srv & -> & _)]; simpl; lia.
Qed.

Lemma listen_bound_nonempty a b : listen_bound a = Some b -> b <> "".
Proof.
  unfold listen_bound. destruct (String.eqb_spec a ""); by intros [= <-].
Qed.

Lemma at_most_one_server_witness :
  length (served (calls listen_bound
                    [CallStart "" "s"; CallSetUIPath "/ui";
                     CallStart "ws://relay.example/ui" "u"]
                    fresh_controller)) <= 1.
Proof.
  apply (at_most_one_server listen_bound
           [CallStart "" "s"; CallSetUIPath "/ui";
            CallStart "ws://relay.example/ui" "u"] fresh_controller).
  - exact listen_bound_nonempty.
  - by left.
Defined.

(** X3.  A failed listen latches the controller.  When the first effective
    [Start] is given a non-empty plain address and the listen fails, the
    address and the secret stay recorded, so no later call starts a server. *)
Theorem failed_listen_latches
    (Listen : string -> option string) (addr secret : string)
    (c : Controller) (ks : list Call) :
  serverAddr (vars c) = "" ->
  addr <> "" ->
  Contains addr "://" = false ->
  Listen addr = None ->
  let c' := calls Listen ks (Start Listen addr secret c) in
  served c' = served c
  /\ serverAddr (vars c') = addr
  /\ serverSecret (vars c') = secret.
Proof.
  intros He Hne Hc Hl c'.
  destruct (Start_effective Listen addr secret c He)
    as (Hsec & _ & [(Hc1 & _)|[(_ & _ & Ha & Hs)|(b & _ & Hl' & _)]]);
    [congruence| |congruence].
  destruct (calls_latched Listen ks (Start Listen addr secret c))
    as (Ha' & Hs' & Hv'); [by rewrite Ha|].
  unfold c'. by rewrite Hv', Ha', Hs', Hs, Ha, Hsec.
Qed.

Lemma failed_listen_latches_witness :
  served (calls listen_none
            [CallStart "127.0.0.1:9091" "t"; CallStart "ws://relay/ui" "u"]
            (Start listen_none "127.0.0.1:9090" "s" fresh_controller))
  = [].
Proof.
  apply (failed_listen_latches listen_none "127.0.0.1:9090" "s"
           fresh_controller
           [CallStart "127.0.0.1:9091" "t"; CallStart "ws://relay/ui" "u"]);
    [reflexivity|discriminate|reflexivity|reflexivity].
Defined.

(** X4.  The empty address is the exception: when [Start] is given [""] and
    the listen fails, the recorded address is still empty, so the next
    [Start] runs as if the failed one had not been made. *)
Theorem empty_address_retry
    (Listen : string -> option string) (secret1 addr secret2 : string)
    (c : Controller) :
  serverAddr (vars c) = "" ->
  Listen "" = None ->
  Start Listen addr secret2 (Start Listen "" secret1 c)
  = Start Listen addr secret2 c.
Proof.
  intros He Hl.
  destruct (Start_effective Listen "" secret1 c He)
    as (_ & Hui & [(Hc1 & _)|[(_ & _ & Ha & Hs)|(b & _ & Hl' & _)]]);
    [discriminate| |congruence].
  unfold Start at 1 3. by rewrite Ha, He, Hui, Hs.
Qed.

Lemma empty_address_retry_witness :
  Start listen_none "ws://relay.example/ui" "u"
    (Start listen_none "" "s" fresh_controller)
  = Start listen_none "ws://relay.example/ui" "u" fresh_controller.
Proof.
  apply (empty_address_retry listen_none "s" "ws://relay.example/ui" "u"
           fresh_controller); reflexivity.
Defined.

(** X5.  The UI path is read when [Start] runs.  After [SetUIPath path], an
    effective [Start] gives the server it starts a not-found handler for
    [path] when [path] is non-empty and none otherwise; once it has recorded
    an address, a later [SetUIPath], followed by any calls, leaves the
    servers and their routers as they are. *)
Theorem ui_path_read_at_Start
    (Listen : string -> option string) (path addr secret : string)
    (c : Controller) :
  serverAddr (vars c) = "" ->
  let c1 := Start Listen addr secret (SetUIPath path c) in
  (forall srv, srv ∈ served c1 ->
     srv ∈ served c
     \/ NotFound (server_router srv) = (if String.eqb path "" then None
                                        else Some path))
  /\ (serverAddr (vars c1) <> "" ->
      forall path' ks,
        served (calls Listen ks (SetUIPath path' c1)) = served c1).
Proof.
  intros He c1. split.
  - intros srv Hin.
    assert (He' : serverAddr (vars (SetUIPath path c)) = "") by done.
    destruct (Start_effective Listen addr secret _ He')
      as (_ & _ & [(_ & _ & Hs)|[(_ & _ & _ & Hs)|(b & _ & _ & _ & Hs)]]);
      fold c1 in Hs; rewrite Hs in Hin; simpl in Hin.
    + apply elem_of_app in Hin as [?| ->%list_elem_of_singleton]; [by left|].
      right. simpl. by destruct (String.eqb path "").
    + by left.
    + apply elem_of_app in Hin as [?| ->%list_elem_of_singleton]; [by left|].
      right. simpl. by destruct (String.eqb path "").
  - intros Hrec path' ks.
    by destruct (calls_latched Listen ks (SetUIPath path' c1)) as (_ & _ & ->).
Qed.

Lemma ui_path_read_at_Start_witness :
  served (calls listen_bound [CallStart "" "t"]
            (SetUIPath "/other"
               (Start listen_bound "127.0.0.1:9090" "s"
                  (SetUIPath "/ui" fresh_controller))))
  = [HttpServe "127.0.0.1:9090" (newRouter "/ui")].
Proof.
  destruct (ui_path_read_at_Start listen_bound "/ui" "127.0.0.1:9090" "s"
              fresh_controller) as [_ Hlater]; [reflexivity|].
  rewrite Hlater; [reflexivity|discriminate].
Defined.

(** ** Streams only grow, and end with the first failure *)

Section TrafficGrowth.

Context (isWS : Values -> bool) (Marshal : JSON -> option string)
        (upgrade_ok : bool).

Local Abbreviation loop := (traffic_loop Marshal).

(** A tick at which the loop leaves. *)
Local Abbreviation fails :=
  (fun t => Encode Marshal (Traffic_of t) = None \/ tick_write_ok t = false).

Lemma traffic_loop_app wsConn ticks more : forall w,
  exists tail, loop wsConn (ticks ++ more) w = loop wsConn ticks w ++ tail.
Proof.
  induction ticks as [|t ticks IH]; intros w.
  - destruct (traffic_loop_prefix Marshal wsConn more w)
      as (n & bufs & _ & _ & Hout & _).
    eexists. exact Hout.
  - rewrite <- app_comm_cons, !traffic_loop_cons.
    destruct (Encode Marshal (Traffic_of t)) as [buf|];
      [|by (exists []; rewrite app_nil_r)].
    destruct (tick_write_ok t); [apply IH|by (exists []; rewrite app_nil_r)].
Qed.

Lemma traffic_loop_left wsConn ticks more : forall w,
  Exists fails ticks ->
  loop wsConn (ticks ++ more) w = loop wsConn ticks w.
Proof.
  induction ticks as [|t ticks IH]; intros w Hex.
  - by apply Exists_nil in Hex.
  - rewrite <- app_comm_cons, !traffic_loop_cons.
    destruct (Encode Marshal (Traffic_of t)) as [buf|] eqn:Ee; [|done].
    destruct (tick_write_ok t) eqn:Ew; [|done].
    apply IH. apply Exists_cons in Hex as [[?|?]|?]; [congruence..|done].
Qed.

End TrafficGrowth.

(** X6.  What [traffic] has written stays written: when its ticker delivers
    more ticks the trace is the old trace with something appended.  After a
    tick whose encode or write failed, further ticks add nothing. *)
Theorem traffic_grows_until_failure
    (isWS : Values -> bool) (Marshal : JSON -> option string)
    (upgrade_ok : bool) (NewTicker NewTicker' : Z -> list Tick)
    (ticks more : list Tick) (w : ResponseWriter) (r : Request) :
  NewTicker Second = ticks ->
  NewTicker' Second = ticks ++ more ->
  (exists tail,
      traffic isWS Marshal upgrade_ok NewTicker' w r
      = traffic isWS Marshal upgrade_ok NewTicker w r ++ tail)
  /\ (Exists (fun t => Marshal (to_json (Traffic_of t)) = None
                       \/ tick_write_ok t = false) ticks ->
      traffic isWS Marshal upgrade_ok NewTicker' w r
      = traffic isWS Marshal upgrade_ok NewTicker w r).
Proof.
  intros Hticks Hmore.
  rewrite !traffic_negotiated, Hticks, Hmore.
  destruct (isWS (Header r) && negb upgrade_ok).
  { split; [by (exists []; rewrite app_nil_r)|done]. }
  split; [apply traffic_loop_app|].
  intros Hex. apply traffic_loop_left.
  eapply Exists_impl; [exact Hex|].
  intros t [Hm|Hw]; [left|by right].
  unfold Encode. by rewrite Hm.
Qed.

Lemma traffic_grows_until_failure_witness :
  traffic browser_upgrade some_Marshal true
    (ticker_of (three_ticks ++ two_ticks)) [] traffic_request
  = traffic browser_upgrade some_Marshal true (ticker_of three_ticks) []
      traffic_request.
Proof.
  apply (traffic_grows_until_failure browser_upgrade some_Marshal true
           (ticker_of three_ticks) (ticker_of (three_ticks ++ two_ticks))
           three_ticks two_ticks [] traffic_request);
    [reflexivity|reflexivity|].
  apply Exists_cons_tl, Exists_cons_tl, Exists_cons_hd. by right.
Defined.

Section LogGrowth.

Context (isWS : Values -> bool) (Marshal : JSON -> option string)
        (upgrade_ok : bool) (LogLevelMapping : gmap string LogLevel)
        (LogLevel_String : LogLevel -> string) (ErrBadRequest : HTTPError).

Local Abbreviation run := (log_run Marshal LogLevel_String).
Local Abbreviation state :=
  (getLogs_state isWS Marshal upgrade_ok LogLevelMapping LogLevel_String
     ErrBadRequest).

Lemma log_run_app level wsConn steps more st :
  run level wsConn (steps ++ more) st
  = run level wsConn more (run level wsConn steps st).
Proof. apply foldl_app. Qed.

(** The state after more steps is the state reached, run further. *)
Lemma getLogs_state_app steps more w r :
  state (steps ++ more) w r
  = match state steps w r with
    | inl w' => inl w'
    | inr st =>
        match LogLevelMapping !! levelText r with
        | Some level =>
            inr (run level (negotiated (isWS (Header r))) more st)
        | None => inr st
        end
    end.
Proof.
  unfold getLogs_state.
  destruct (LogLevelMapping !! levelText r) as [level|]; [|done].
  destruct (isWS (Header r)), upgrade_ok; simpl; try done;
    by rewrite log_run_app.
Qed.

End LogGrowth.



(** ** A burst while the writer is stalled *)

Lemma published_receives k b : published (replicate k (Receive b)) = [].
Proof. induction k; [done|]. simpl. done. Qed.

Lemma writes_ok_receives k : writes_ok (replicate k (Receive true)) = true.
Proof. induction k; [done|]. simpl. done. Qed.

Lemma occupancy_receives k b : forall n,
  occupancy (replicate k (Receive b)) n = Some (n - k).
Proof.
  induction k as [|k IH]; intros n; simpl.
  - f_equal. lia.
  - rewrite IH. f_equal. lia.
Qed.

Section Burst.

Context (Marshal : JSON -> option string)
        (LogLevel_String : LogLevel -> string).

Local Abbreviation run := (log_run Marshal LogLevel_String).

(** With the writer idle, the channel fills in order and then stays as it
    is. *)
Lemma log_run_publishes level wsConn es : forall st,
  running st = true ->
  length (ch st) <= chanCap ->
  run level wsConn (map Publish es) st
  = {| ch := take chanCap (ch st ++ es); out := out st; running := true |}.
Proof.
  induction es as [|e es IH]; intros st Hr Hlen.
  - simpl. rewrite app_nil_r, take_ge by done. destruct st; simpl in *.
    by rewrite Hr.
  - change (run level wsConn (map Publish (e :: es)) st)
      with (run level wsConn (map Publish es)
              (log_step Marshal LogLevel_String level wsConn st (Publish e))).
    unfold log_step. rewrite Hr. simpl negb. cbv iota.
    rewrite IH; simpl; [|done|by apply trySend_length].
    f_equal. unfold trySend.
    destruct (Nat.ltb_spec (length (ch st)) chanCap).
    + by rewrite <- app_assoc.
    + rewrite !take_app_le by lia. done.
Qed.

End Burst.

(** X8.  When any number of events arrives while the writer takes none, and
    the writer then takes as many as arrived, the stream is exactly the first
    1024 of them that are at or above the level, in order; so a burst of up
    to 1024 events loses nothing, and of a longer one the events past the
    1024th are the ones lost. *)
Theorem getLogs_stalled_writer
    (isWS : Values -> bool) (Marshal : JSON -> option string)
    (upgrade_ok : bool) (LogLevelMapping : gmap string LogLevel)
    (LogLevel_String : LogLevel -> string) (ErrBadRequest : HTTPError)
    (es : list Event) (bufs : list string) (level : LogLevel)
    (w : ResponseWriter) (r : Request) :
  LogLevelMapping !! levelText r = Some level ->
  isWS (Header r) = false \/ upgrade_ok = true ->
  Forall2 (fun e buf => Encode Marshal (Log_of LogLevel_String e) = Some buf)
    (filter (at_level level) (take 1024 es)) bufs ->
  getLogs isWS Marshal upgrade_ok LogLevelMapping LogLevel_String
    ErrBadRequest
    (map Publish es ++ replicate (length es) (Receive true)) w r
  = w ++ prelude (isWS (Header r)) upgrade_ok
      ++ frames (negotiated (isWS (Header r))) bufs.
Proof.
  intros Hlevel Hup Henc.
  rewrite (getLogs_known_level _ _ _ _ _ _ _ _ _ _ Hlevel).
  assert (isWS (Header r) && negb upgrade_ok = false) as ->.
  { destruct Hup as [->| ->]; [done|by rewrite andb_false_r]. }
  rewrite log_run_app, log_run_publishes; simpl; [|done|lia].
  rewrite log_run_exact with (bufs := bufs); simpl.
  - rewrite <- app_assoc.
    destruct Hup as [->| ->]; [done|by destruct (isWS (Header r))].
  - done.
  - rewrite occupancy_receives. f_equal.
    pose proof (length_take es chanCap). lia.
  - apply writes_ok_receives.
  - by rewrite published_receives, app_nil_r.
Qed.

Lemma getLogs_stalled_writer_witness :
  getLogs browser_upgrade some_Marshal true level_names String_of_level
    bad_request burst [] logs_request
  = [] ++ prelude (browser_upgrade (Header logs_request)) true
       ++ frames (negotiated (browser_upgrade (Header logs_request)))
            (map log_line full_channel).
Proof.
  apply (getLogs_stalled_writer browser_upgrade some_Marshal true level_names
           String_of_level bad_request (full_channel ++ [new_event])
           (map log_line full_channel) INFO [] logs_request).
  - reflexivity.
  - left. reflexivity.
  - assert (Hf : filter (at_level INFO) (take 1024 (full_channel ++ [new_event]))
                 = full_channel) by (by vm_compute).
    rewrite Hf. apply Forall2_fmap_r, Forall_Forall2_diag, Forall_forall.
    reflexivity.
Defined.

(** ** More on [authentication] *)

(** The header test, once the token branch is out of the way. *)
Lemma authentication_by_header isWS g next w r :
  serverSecret g <> "" ->
  isWS (Header r) && negb (String.eqb (Get "token" (Query r)) "") = false ->
  authentication isWS g next w r
  = if decide (Get "Authorization" (Header r)
               = "Bearer " +:+ serverSecret g)
    then next w r
    else w ++ [RenderJSON (Some 401)
                 (JObject [("message", JString "Unauthorized")])].
Proof.
  intros Hs Hb. unfold authentication.
  destruct (String.eqb_spec (serverSecret g) ""); [done|].
  rewrite Hb.
  pose proof (bearer_check (Get "Authorization" (Header r)) (serverSecret g))
    as Hc.
  destruct (Cut (Get "Authorization" (Header r)) " ") as [[b t] f].
  destruct (negb (String.eqb b "Bearer")
            || (negb f || negb (String.eqb t (serverSecret g)))).
  - destruct (decide _) as [Heq|]; [|done]. apply Hc in Heq. done.
  - destruct (decide _) as [|Hne]; [done|]. by destruct Hne; apply Hc.
Qed.

(** X9.  Off a WebSocket upgrade the query plays no part: with a non-empty
    secret, a request that is not a WebSocket upgrade is admitted exactly
    when its [Authorization] header is [Bearer <secret>], whatever its query
    holds, [token=<secret>] included. *)
Theorem token_ignored_off_websocket
    (isWS : Values -> bool) (g : Globals) (next : Handler)
    (w : ResponseWriter) (r : Request) (q : Values) :
  serverSecret g <> "" ->
  isWS (Header r) = false ->
  authentication isWS g next w (with_query q r)
  = if decide (Get "Authorization" (Header r)
               = "Bearer " +:+ serverSecret g)
    then next w (with_query q r)
    else w ++ [RenderJSON (Some 401)
                 (JObject [("message", JString "Unauthorized")])].
Proof.
  intros Hs Hws.
  rewrite authentication_by_header; [done|done|].
  simpl. by rewrite Hws.
Qed.

Lemma token_ignored_off_websocket_witness :
  authentication browser_upgrade secret_s ok_handler []
    (with_query {[ "token" := ["s"] ]} bare_request)
  = unauthorized_answer.
Proof.
  rewrite (token_ignored_off_websocket browser_upgrade secret_s ok_handler []
             bare_request {[ "token" := ["s"] ]});
    [reflexivity|discriminate|reflexivity].
Defined.

(** Whatever the secret, [authentication] hands the request over untouched,
    or answers 401 and nothing else. *)
Lemma authentication_cases isWS g next w r :
  authentication isWS g next w r = next w r
  \/ authentication isWS g next w r
     = w ++ [RenderJSON (Some 401)
               (JObject [("message", JString "Unauthorized")])].
Proof.
  unfold authentication.
  destruct (String.eqb (serverSecret g) ""); [by left|].
  destruct (isWS (Header r) && negb (String.eqb (Get "token" (Query r)) "")).
  - destruct (negb (String.eqb (Get "token" (Query r)) (serverSecret g)));
      [by right|by left].
  - destruct (Cut (Get "Authorization" (Header r)) " ") as [[b t] f].
    destruct (negb (String.eqb b "Bearer")
              || (negb f || negb (String.eqb t (serverSecret g))));
      [by right|by left].
Qed.

(** X10.  [GET /version] behind [authentication] gets exactly one
    [render.JSON] answer: the object [{"version": ...}] under no status of
    its own, or the 401 object; with the empty secret it is always the
    version. *)
Theorem version_behind_authentication
    (isWS : Values -> bool) (Version : string) (g : Globals)
    (w : ResponseWriter) (r : Request) :
  let answer := authentication isWS g (version Version) w r in
  let versioned :=
    w ++ [RenderJSON (StatusCtx r) (JObject [("version", JString Version)])] in
  (answer = versioned
   \/ answer = w ++ [RenderJSON (Some 401)
                       (JObject [("message", JString "Unauthorized")])])
  /\ (serverSecret g = "" -> answer = versioned).
Proof.
  intros answer versioned. split.
  - destruct (authentication_cases isWS g (version Version) w r) as [H|H];
      [left|right]; exact H.
  - intros Hs. unfold answer, authentication. by rewrite Hs.
Qed.

Lemma version_behind_authentication_witness :
  authentication browser_upgrade no_secret (version "v1.18.0") [] bare_request
  = [RenderJSON None (JObject [("version", JString "v1.18.0")])].
Proof.
  apply (version_behind_authentication browser_upgrade "v1.18.0" no_secret []
           bare_request).
  reflexivity.
Defined.

(** ** [NewHTTP] against [NewSocket] *)

(** X11.  [NewHTTP] is [NewSocket] at kind HTTP with the source address
    passed in by hand: when [source] prints as the connection's remote
    address, both hand [NewConnContext] the same connection and the same
    metadata; and the metadata of [NewHTTP] does not depend on the
    connection at all. *)
Theorem NewHTTP_is_NewSocket_HTTP
    (parseSocksAddr : bytes -> Metadata)
    (parseAddr : string -> (bytes * string) + string)
    (NewConnContext : Conn -> Metadata -> option ConnContext)
    (target : bytes) (source : Addr) (conn : Conn) :
  (String_ source = String_ (RemoteAddr conn) ->
   exists m,
     NewHTTP parseSocksAddr parseAddr NewConnContext target source conn
     = NewConnContext conn m
     /\ NewSocket parseSocksAddr parseAddr NewConnContext target conn HTTP
        = NewConnContext conn m)
  /\ (exists m, forall conn',
        NewHTTP parseSocksAddr parseAddr NewConnContext target source conn'
        = NewConnContext conn' m).
Proof.
  split.
  - intros Hsrc. eexists. split; [reflexivity|].
    unfold NewSocket. by rewrite <- Hsrc.
  - eexists. intros conn'. reflexivity.
Qed.

Lemma NewHTTP_is_NewSocket_HTTP_witness :
  exists m,
    NewHTTP example_parseSocksAddr example_parseAddr example_NewConnContext
      [Byte.x01] good_addr good_conn
    = example_NewConnContext good_conn m
    /\ NewSocket example_parseSocksAddr example_parseAddr
         example_NewConnContext [Byte.x01] good_conn HTTP
       = example_NewConnContext good_conn m.
Proof.
  apply (NewHTTP_is_NewSocket_HTTP example_parseSocksAddr example_parseAddr
           example_NewConnContext [Byte.x01] good_addr good_conn).
  reflexivity.
Defined.
